(** * GInetFlow: the IP flow manager of ginetflow.c

    A shallow embedding of [ginetflow.c]: the packet parser
    ([flow_parse], [flow_parse_ipv4], [flow_parse_tcp]), the flow hash
    ([crc16], [flow_hash]), the key comparison ([flow_compare]), the
    property accessors and the flow table ([g_inet_flow_get_full]).

    Conventions of the model.
    - A frame is the list of bytes of the object [frame] points to; the
      [length] argument is a separate 32-bit number, as in C.  A read
      outside the object is undefined behaviour and shows as [Undefined].
    - [guint16], [guint32] and [guint64] numbers are [Z] with the
      wrap-around written out.  A [guint32] that holds an address as it
      was copied out of the packet is kept as its four bytes in memory
      order ([raw32]); its numeric value on the host depends on the
      host's byte order ([host32]).
    - [GInetFlow] objects live in a store addressed by allocation index;
      the GLib containers ([GHashTable], [GList]) hold such addresses. *)

From Stdlib Require Import ZArith Lia Bool DecimalString.
From Stdlib Require Import Strings.String Strings.Byte.
From stdpp Require Import base list.

Local Open Scope Z_scope.

(** ** Outcomes of C code that reads memory *)

Inductive outcome (A : Type) : Type :=
| Done (a : A)
| Undefined.
Arguments Done {A} a.
Arguments Undefined {A}.

Definition obind {A B} (k : A -> outcome B) (m : outcome A) : outcome B :=
  match m with
  | Done a => k a
  | Undefined => Undefined
  end.

#[export] Instance outcome_bind : MBind outcome := @obind.
#[export] Instance outcome_ret : MRet outcome := @Done.

(** ** Machine integers *)

Definition u16 (z : Z) : Z := z mod 2 ^ 16.
Definition u32 (z : Z) : Z := z mod 2 ^ 32.
Definition u64 (z : Z) : Z := z mod 2 ^ 64.

Definition byte_val (b : byte) : Z := Z.of_N (Byte.to_N b).

(** A [guint32] as it lies in memory, lowest address first. *)
Definition raw32 : Type := (byte * byte * byte * byte)%type.

Definition raw32_zero : raw32 := (x00, x00, x00, x00).

Definition raw32_bytes (w : raw32) : list byte :=
  let '(a, b, c, d) := w in [a; b; c; d].

(** [GUINT16_FROM_BE] and [GINT32_FROM_BE] applied to a value read from
    memory: the number the bytes spell in network order, whatever the
    host.  ([GINT32_FROM_BE] yields a [gint32]; the source assigns it to
    a [guint32], which gives the unsigned number below.) *)
Definition be16 (hi lo : byte) : Z := byte_val hi * 2 ^ 8 + byte_val lo.

Definition GINT32_FROM_BE (w : raw32) : Z :=
  let '(a, b, c, d) := w in
  byte_val a * 2 ^ 24 + byte_val b * 2 ^ 16 + byte_val c * 2 ^ 8 + byte_val d.

(** The host's byte order, [G_BYTE_ORDER] of GLib. *)
Inductive byte_order : Type := G_LITTLE_ENDIAN | G_BIG_ENDIAN.

(** The number a [guint32] lvalue evaluates to on the host. *)
Definition host32 (bo : byte_order) (w : raw32) : Z :=
  let '(a, b, c, d) := w in
  match bo with
  | G_BIG_ENDIAN =>
      byte_val a * 2 ^ 24 + byte_val b * 2 ^ 16 + byte_val c * 2 ^ 8 + byte_val d
  | G_LITTLE_ENDIAN =>
      byte_val d * 2 ^ 24 + byte_val c * 2 ^ 16 + byte_val b * 2 ^ 8 + byte_val a
  end.

(** ** Reading the packet *)

Definition load8 (data : list byte) (off : nat) : outcome byte :=
  match data !! off with
  | Some b => Done b
  | None => Undefined
  end.

Definition load16_be (data : list byte) (off : nat) : outcome Z :=
  hi ← load8 data off;
  lo ← load8 data (off + 1);
  Done (be16 hi lo).

Definition load32_raw (data : list byte) (off : nat) : outcome raw32 :=
  a ← load8 data off;
  b ← load8 data (off + 1);
  c ← load8 data (off + 2);
  d ← load8 data (off + 3);
  Done (a, b, c, d).

(** ** The structures of the source *)

(** The values the source stores in [family]: the zero of a fresh
    object and [G_SOCKET_FAMILY_IPV4]. *)
Inductive GSocketFamily : Type :=
| G_SOCKET_FAMILY_INVALID
| G_SOCKET_FAMILY_IPV4.

(** [guint32 lower_ip[4]] *)
Definition ip_array : Type := (raw32 * raw32 * raw32 * raw32)%type.

Definition ip_array_zero : ip_array :=
  (raw32_zero, raw32_zero, raw32_zero, raw32_zero).

Definition ip_array_bytes (a : ip_array) : list byte :=
  let '(w0, w1, w2, w3) := a in
  raw32_bytes w0 ++ raw32_bytes w1 ++ raw32_bytes w2 ++ raw32_bytes w3.

(** [a[0] = w] *)
Definition ip_array_set0 (a : ip_array) (w : raw32) : ip_array :=
  let '(_, w1, w2, w3) := a in (w, w1, w2, w3).

Record flow_tuple : Type := Tuple {
  protocol : Z;
  lower_port : Z;
  upper_port : Z;
  lower_ip : ip_array;
  upper_ip : ip_array
}.

Record GInetFlow : Type := Flow {
  timestamp : Z;
  family : GSocketFamily;
  hash : Z;
  tuple : flow_tuple;
  context : Z
}.

(** [GInetFlow packet = {}] and the zeroed instance [g_object_new] hands out. *)
Definition flow_zero : GInetFlow :=
  Flow 0 G_SOCKET_FAMILY_INVALID 0 (Tuple 0 0 0 ip_array_zero ip_array_zero) 0.

Definition set_timestamp (f : GInetFlow) (v : Z) : GInetFlow :=
  Flow v (family f) (hash f) (tuple f) (context f).
Definition set_family (f : GInetFlow) (v : GSocketFamily) : GInetFlow :=
  Flow (timestamp f) v (hash f) (tuple f) (context f).
Definition set_hash (f : GInetFlow) (v : Z) : GInetFlow :=
  Flow (timestamp f) (family f) v (tuple f) (context f).
Definition set_tuple (f : GInetFlow) (v : flow_tuple) : GInetFlow :=
  Flow (timestamp f) (family f) (hash f) v (context f).

Definition set_protocol (t : flow_tuple) (v : Z) : flow_tuple :=
  Tuple v (lower_port t) (upper_port t) (lower_ip t) (upper_ip t).
Definition set_lower_port (t : flow_tuple) (v : Z) : flow_tuple :=
  Tuple (protocol t) v (upper_port t) (lower_ip t) (upper_ip t).
Definition set_upper_port (t : flow_tuple) (v : Z) : flow_tuple :=
  Tuple (protocol t) (lower_port t) v (lower_ip t) (upper_ip t).
Definition set_lower_ip0 (t : flow_tuple) (w : raw32) : flow_tuple :=
  Tuple (protocol t) (lower_port t) (upper_port t)
        (ip_array_set0 (lower_ip t) w) (upper_ip t).
Definition set_upper_ip0 (t : flow_tuple) (w : raw32) : flow_tuple :=
  Tuple (protocol t) (lower_port t) (upper_port t)
        (lower_ip t) (ip_array_set0 (upper_ip t) w).

Definition ETH_PROTOCOL_IP : Z := 0x0800.
Definition ETH_PROTOCOL_IPV6 : Z := 0x86DD.
Definition IP_PROTOCOL_ICMP : Z := 1.
Definition IP_PROTOCOL_TCP : Z := 6.
Definition IP_PROTOCOL_UDP : Z := 17.

(** [sizeof] of the packed header structures. *)
Definition sizeof_ethernet_hdr_t : Z := 14.
Definition sizeof_ip_hdr_t : Z := 20.
Definition sizeof_tcp_hdr_t : Z := 20.

(** ** The parser *)

(** The parse functions fill [*f] in place and return a [gboolean]; the
    model returns the flag together with [*f] as the call leaves it. *)

Definition flow_parse_tcp (f : GInetFlow) (data : list byte) (length : Z)
  : outcome (bool * GInetFlow) :=
  if length <? sizeof_tcp_hdr_t then Done (false, f)
  else
    sport ← load16_be data 0;
    dport ← load16_be data 2;
    if sport <? dport
    then Done (true, set_tuple f (set_upper_port (set_lower_port (tuple f) sport) dport))
    else Done (true, set_tuple f (set_lower_port (set_upper_port (tuple f) sport) dport)).

Definition flow_parse_ipv4 (f : GInetFlow) (data : list byte) (length : Z)
  : outcome (bool * GInetFlow) :=
  if length <? sizeof_ip_hdr_t then Done (false, f)
  else
    saddr ← load32_raw data 12;
    daddr ← load32_raw data 16;
    let sip := GINT32_FROM_BE saddr in
    let dip := GINT32_FROM_BE daddr in
    let f :=
      if sip <? dip
      then set_tuple f (set_upper_ip0 (set_lower_ip0 (tuple f) saddr) daddr)
      else set_tuple f (set_lower_ip0 (set_upper_ip0 (tuple f) saddr) daddr) in
    proto ← load8 data 9;
    let f := set_tuple f (set_protocol (tuple f) (byte_val proto)) in
    if byte_val proto =? IP_PROTOCOL_TCP
    then flow_parse_tcp f (drop 20 data) (u32 (length - sizeof_ip_hdr_t))
    else Done (false, f).

Definition flow_parse (f : GInetFlow) (data : list byte) (length : Z) (hash : Z)
  : outcome (bool * GInetFlow) :=
  ethertype ← load16_be data 12;
  if ethertype =? ETH_PROTOCOL_IP
  then
    let f := set_hash (set_family f G_SOCKET_FAMILY_IPV4) hash in
    flow_parse_ipv4 f (drop 14 data) (u32 (length - sizeof_ethernet_hdr_t))
  else Done (false, f).

(** ** The flow hash *)

Definition crc16_poly : Z := 0x1021.

(** One turn of the inner loop of [crc16]: bit [j] of the byte [b]. *)
Definition crc16_step (iv b j : Z) : Z :=
  Z.land
    (Z.lxor (Z.shiftl iv 1)
       (if Z.lxor (Z.land (Z.shiftr iv 15) 1) (Z.land (Z.shiftr b j) 1) =? 0
        then 0 else crc16_poly))
    0xffff.

(** [for (j = n - 1; j >= 0; j--)] *)
Fixpoint crc16_inner (n : nat) (iv b : Z) : Z :=
  match n with
  | O => iv
  | S j => crc16_inner j (crc16_step iv b (Z.of_nat j)) b
  end.

(** [for (i = n - 1; i >= 0; i--)] *)
Fixpoint crc16_outer (n : nat) (iv p : Z) : Z :=
  match n with
  | O => iv
  | S i =>
      let b := Z.land (Z.shiftr p (Z.of_nat i * 8)) 0xff in
      crc16_outer i (crc16_inner 8 iv b) p
  end.

Definition crc16 (iv p : Z) : Z := crc16_outer 8 iv p.

Section Host.

(** The byte order of the machine the library runs on. *)
Variable G_BYTE_ORDER : byte_order.

(** [((guint64) a[i]) << 32 | a[i + 1]] *)
Definition ip_pair (hi lo : raw32) : Z :=
  Z.lor (u64 (Z.shiftl (host32 G_BYTE_ORDER hi) 32)) (host32 G_BYTE_ORDER lo).

(** [flow_hash] returns the hash and leaves it cached in [f->hash]; the
    model returns the hash together with [*f] as the call leaves it.
    The hash is a [guint16]; the table calls the function through a
    [GHashFunc] and the model takes the [guint] it gets to be that
    16-bit number.  (The dot the source prints when it computes a hash
    is not modelled.) *)
Definition flow_hash (f : GInetFlow) : Z * GInetFlow :=
  if negb (hash f =? 0) then (hash f, f)
  else
    let t := tuple f in
    let '(l0, l1, l2, l3) := lower_ip t in
    let '(u0, u1, u2, u3) := upper_ip t in
    let src_crc := 0xffff in
    let dst_crc := 0xffff in
    let prot_crc := 0xffff in
    let src_crc := crc16 src_crc (ip_pair l0 l1) in
    let src_crc := crc16 src_crc (ip_pair l2 l3) in
    let src_crc := crc16 src_crc (u64 (Z.shiftl (lower_port t) 48)) in
    let dst_crc := crc16 dst_crc (ip_pair u0 u1) in
    let dst_crc := crc16 dst_crc (ip_pair u2 u3) in
    let dst_crc := crc16 dst_crc (u64 (Z.shiftl (upper_port t) 48)) in
    let prot_crc := crc16 prot_crc (u64 (Z.shiftl (protocol t) 56)) in
    let h := u16 (Z.lxor (Z.lxor src_crc dst_crc) prot_crc) in
    (h, set_hash f h).

End Host.

(** ** Comparing keys *)

(** [memcmp] over the first [n] bytes; the sign of the first difference.
    Both arguments are 16-byte arrays wherever the source calls it. *)
Fixpoint memcmp (s1 s2 : list byte) (n : nat) : Z :=
  match n, s1, s2 with
  | S n', a :: s1', b :: s2' =>
      if byte_val a <? byte_val b then -1
      else if byte_val b <? byte_val a then 1
      else memcmp s1' s2' n'
  | _, _, _ => 0
  end.

Definition flow_compare (f1 f2 : GInetFlow) : bool :=
  if negb (protocol (tuple f1) =? protocol (tuple f2)) then false
  else if negb (lower_port (tuple f1) =? lower_port (tuple f2)) then false
  else if negb (upper_port (tuple f1) =? upper_port (tuple f2)) then false
  else if negb (memcmp (ip_array_bytes (upper_ip (tuple f1)))
                       (ip_array_bytes (upper_ip (tuple f2))) 16 =? 0) then false
  else if negb (memcmp (ip_array_bytes (lower_ip (tuple f1)))
                       (ip_array_bytes (lower_ip (tuple f2))) 16 =? 0) then false
  else true.

(** ** The properties of a flow *)

Inductive GValue : Type :=
| GUInt (z : Z)
| GUInt64 (z : Z)
| GString (s : option string).

Definition FLOW_HASH : Z := 1.
Definition FLOW_PROTOCOL : Z := 2.
Definition FLOW_LPORT : Z := 3.
Definition FLOW_UPORT : Z := 4.
Definition FLOW_LIP : Z := 5.
Definition FLOW_UIP : Z := 6.

(** GIO's [GInetAddress], for the families the source stores: the four
    address bytes of an IPv4 address. *)
Definition GInetAddress : Type := list byte.

(** [g_inet_address_new_from_bytes]: copies as many bytes as the family
    has; [NULL] for a family that is not an address family. *)
Definition g_inet_address_new_from_bytes (bytes : list byte) (fam : GSocketFamily)
  : option GInetAddress :=
  match fam with
  | G_SOCKET_FAMILY_IPV4 => Some (take 4 bytes)
  | _ => None
  end.

Definition decimal (b : byte) : string :=
  NilZero.string_of_uint (N.to_uint (Byte.to_N b)).

(** [g_inet_address_to_string]: dotted decimal; [NULL] for [NULL]. *)
Definition g_inet_address_to_string (a : option GInetAddress) : option string :=
  match a with
  | Some [a; b; c; d] =>
      Some (decimal a ++ "." ++ decimal b ++ "." ++ decimal c ++ "." ++ decimal d)%string
  | _ => None
  end.

(** [None]: the property id is not one of the flow's, [*value] is left
    as it was. *)
Definition g_inet_flow_get_property (flow : GInetFlow) (prop_id : Z) : option GValue :=
  if prop_id =? FLOW_HASH then Some (GUInt (hash flow))
  else if prop_id =? FLOW_PROTOCOL then Some (GUInt (protocol (tuple flow)))
  else if prop_id =? FLOW_LPORT then Some (GUInt (lower_port (tuple flow)))
  else if prop_id =? FLOW_UPORT then Some (GUInt (upper_port (tuple flow)))
  else if prop_id =? FLOW_LIP then
    let gaddress :=
      g_inet_address_new_from_bytes (ip_array_bytes (lower_ip (tuple flow))) (family flow) in
    Some (GString (g_inet_address_to_string gaddress))
  else if prop_id =? FLOW_UIP then
    let gaddress :=
      g_inet_address_new_from_bytes (ip_array_bytes (lower_ip (tuple flow))) (family flow) in
    Some (GString (g_inet_address_to_string gaddress))
  else None.

(** ** The GLib containers *)

(** A [GHashTable] keeps, for every entry, the hash its key had when it
    was inserted, and finds a key by that hash first and the equality
    function second ([g_hash_table_lookup_node]).  The order of the
    entries stands for the probing order. *)
Record GHashNode : Type := Node {
  node_hash : Z;
  node_key : nat;
  node_value : nat
}.

Abbreviation GHashTable := (list GHashNode).

(** GLib keeps the hash values 0 and 1 for free slots and tombstones:
    [if (!HASH_IS_REAL (hash_value)) hash_value = 2]. *)
Definition HASH_IS_REAL (h : Z) : bool := 2 <=? h.

Definition real_hash (h : Z) : Z := if HASH_IS_REAL h then h else 2.

(** [*p] for a [GInetFlow *] into the store. *)
Definition deref (heap : list GInetFlow) (p : nat) : outcome GInetFlow :=
  match heap !! p with
  | Some f => Done f
  | None => Undefined
  end.

(** [g_hash_table_lookup_node] for a table made with [flow_compare] as
    its equality, after the hash of [key] has been taken: the index of
    the entry found. *)
Fixpoint g_hash_table_lookup_node (heap : list GInetFlow) (nodes : GHashTable)
    (hash_value : Z) (key : GInetFlow) : outcome (option nat) :=
  match nodes with
  | [] => Done None
  | n :: rest =>
      hit ← (if node_hash n =? hash_value
             then node_flow ← deref heap (node_key n);
                  Done (flow_compare node_flow key)
             else Done false);
      if hit : bool then Done (Some 0%nat)
      else r ← g_hash_table_lookup_node heap rest hash_value key;
           Done (option_map S r)
  end.

Definition g_hash_table_size (nodes : GHashTable) : Z :=
  u32 (Z.of_nat (length nodes)).

(** [g_list_remove]: drops the first element that is [data]. *)
Fixpoint g_list_remove (l : list nat) (data : nat) : list nat :=
  match l with
  | [] => []
  | x :: rest => if Nat.eqb x data then rest else x :: g_list_remove rest data
  end.

Definition g_list_prepend (l : list nat) (data : nat) : list nat := data :: l.

(** ** The flow table *)

Record GInetFlowTable : Type := Table {
  table : GHashTable;
  list_ : list nat;
  hits : Z;
  misses : Z
}.

(** [g_inet_flow_table_new]: the zeroed instance, with the hash table
    [g_inet_flow_table_init] makes. *)
Definition g_inet_flow_table_new : GInetFlowTable := Table [] [] 0 0.

(** [flow->family = packet.family; flow->hash = packet.hash;
    flow->tuple = packet.tuple] *)
Definition flow_init (flow packet : GInetFlow) : GInetFlow :=
  let flow := set_family flow (family packet) in
  let flow := set_hash flow (hash packet) in
  let flow := set_tuple flow (tuple packet) in
  flow.

Section Table.

Variable G_BYTE_ORDER : byte_order.

(** The record a miss stores, before its time stamp is set: the copy of
    the packet [g_hash_table_lookup] left behind. *)
Definition new_flow (packet : GInetFlow) : GInetFlow :=
  flow_init flow_zero (flow_hash G_BYTE_ORDER packet).2.

(** [g_hash_table_lookup (table, key)] with [flow_hash] as the table's
    hash function: the value found or [NULL], and [*key] as [flow_hash]
    leaves it. *)
Definition g_hash_table_lookup (heap : list GInetFlow) (nodes : GHashTable)
    (key : GInetFlow) : outcome (option nat * GInetFlow) :=
  let '(hash_value, key) := flow_hash G_BYTE_ORDER key in
  r ← g_hash_table_lookup_node heap nodes (real_hash hash_value) key;
  Done (match r with
        | Some i => option_map node_value (nodes !! i)
        | None => None
        end, key).

(** [g_hash_table_replace (table, key, value)]: an entry with an equal
    key takes the new key and value, otherwise an entry is added. *)
Definition g_hash_table_replace (heap : list GInetFlow) (nodes : GHashTable)
    (key value : nat) : outcome (list GInetFlow * GHashTable) :=
  f ← deref heap key;
  let '(hash_value, f) := flow_hash G_BYTE_ORDER f in
  let heap := <[key := f]> heap in
  r ← g_hash_table_lookup_node heap nodes (real_hash hash_value) f;
  Done (heap,
        match r with
        | Some i => <[i := Node (real_hash hash_value) key value]> nodes
        | None => Node (real_hash hash_value) key value :: nodes
        end).

(** [now] is what [get_time_us ()] returns when the call reads the clock. *)
Definition g_inet_flow_get_full (now : Z) (heap : list GInetFlow)
    (t : GInetFlowTable) (frame : list byte) (length hash timestamp : Z)
  : outcome (option nat * list GInetFlow * GInetFlowTable) :=
  '(ok, packet) ← flow_parse flow_zero frame length hash;
  if negb ok then Done (None, heap, t)
  else
    '(found, packet) ← g_hash_table_lookup heap (table t) packet;
    '(flow, heap, t) ←
      match found with
      | Some flow =>
          let l := g_list_remove (list_ t) flow in
          let l := g_list_prepend l flow in
          Done (flow, heap, Table (table t) l (u64 (hits t + 1)) (misses t))
      | None =>
          let flow := Datatypes.length heap in
          let heap := heap ++ [flow_zero] in
          let heap := <[flow := flow_init flow_zero packet]> heap in
          '(heap, nodes) ← g_hash_table_replace heap (table t) flow flow;
          let l := g_list_prepend (list_ t) flow in
          Done (flow, heap, Table nodes l (hits t) (u64 (misses t + 1)))
      end;
    f ← deref heap flow;
    let heap := <[flow := set_timestamp f (if timestamp =? 0 then now else timestamp)]> heap in
    Done (Some flow, heap, t).

Definition g_inet_flow_get (now : Z) (heap : list GInetFlow) (t : GInetFlowTable)
    (frame : list byte) (length : Z)
  : outcome (option nat * list GInetFlow * GInetFlowTable) :=
  g_inet_flow_get_full now heap t frame length 0 0.

End Table.

Definition TABLE_SIZE : Z := 1.
Definition TABLE_HITS : Z := 2.
Definition TABLE_MISSES : Z := 3.

Definition g_inet_flow_table_get_property (t : GInetFlowTable) (prop_id : Z)
  : option GValue :=
  if prop_id =? TABLE_SIZE then Some (GUInt64 (g_hash_table_size (table t)))
  else if prop_id =? TABLE_HITS then Some (GUInt64 (hits t))
  else if prop_id =? TABLE_MISSES then Some (GUInt64 (misses t))
  else None.

(** [g_inet_flow_foreach]: [func] is called on every flow of the list,
    head first; [user_data] and whatever else [func] touches is the
    state [S] it threads. *)
Definition g_inet_flow_foreach {S : Type} (t : GInetFlowTable)
    (func : nat -> S -> S) (user_data : S) : S :=
  fold_left (fun s flow => func flow s) (list_ t) user_data.

(** ** Sequences of calls *)

(** One call of [g_inet_flow_get_full], with the clock it would read. *)
Record call : Type := Call {
  call_frame : list byte;
  call_length : Z;
  call_hash : Z;
  call_timestamp : Z;
  call_now : Z
}.

(** [g_inet_flow_get (table, frame, length)] on a frame of [length] bytes. *)
Definition observe (frame : list byte) (now : Z) : call :=
  Call frame (Z.of_nat (length frame)) 0 0 now.

Section Run.

Variable G_BYTE_ORDER : byte_order.

Definition do_call (s : list GInetFlow * GInetFlowTable) (c : call)
  : outcome (option nat * (list GInetFlow * GInetFlowTable)) :=
  '(r, heap, t) ← g_inet_flow_get_full G_BYTE_ORDER (call_now c) s.1 s.2
                   (call_frame c) (call_length c) (call_hash c) (call_timestamp c);
  Done (r, (heap, t)).

(** The calls of [cs] one after the other: what each returned, and the
    store and table they leave. *)
Fixpoint run (s : list GInetFlow * GInetFlowTable) (cs : list call)
  : outcome (list (option nat) * (list GInetFlow * GInetFlowTable)) :=
  match cs with
  | [] => Done ([], s)
  | c :: cs =>
      '(r, s) ← do_call s c;
      '(rs, s) ← run s cs;
      Done (r :: rs, s)
  end.

End Run.

(** The store and table a run from the new table leaves, and what its
    calls returned. *)
Definition state_after (bo : byte_order) (cs : list call)
  : list GInetFlow * GInetFlowTable :=
  match run bo ([], g_inet_flow_table_new) cs with
  | Done (_, s) => s
  | Undefined => ([], g_inet_flow_table_new)
  end.

Definition results_of (bo : byte_order) (cs : list call) : list (option nat) :=
  match run bo ([], g_inet_flow_table_new) cs with
  | Done (rs, _) => rs
  | Undefined => []
  end.

(** The key [flow_parse] derives from the frame of a call, if it does. *)
Definition call_key (c : call) : option flow_tuple :=
  match flow_parse flow_zero (call_frame c) (call_length c) (call_hash c) with
  | Done (true, packet) => Some (tuple packet)
  | _ => None
  end.

(** ** Notions the statements use *)

(** The frame of the opposite direction: source and destination address
    (bytes 26-29 and 30-33) and source and destination port (bytes 34-35
    and 36-37) change places, every other byte stays. *)
Definition reverse_direction (frame : list byte) : list byte :=
  take 26 frame ++ take 4 (drop 30 frame) ++ take 4 (drop 26 frame)
    ++ take 2 (drop 36 frame) ++ take 2 (drop 34 frame) ++ drop 38 frame.

(** [flow_parse] returns [TRUE] on the frame. *)
Definition parses (frame : list byte) (len h : Z) : Prop :=
  exists packet, flow_parse flow_zero frame len h = Done (true, packet).

(** [flow_parse] returns [FALSE] on the frame. *)
Definition rejects (frame : list byte) (len h : Z) : Prop :=
  exists packet, flow_parse flow_zero frame len h = Done (false, packet).

(** The frame says it carries TCP over IPv4: ethertype [0x0800] and
    protocol 6 in a complete IPv4 header. *)
Definition tcp_ipv4_frame (frame : list byte) : Prop :=
  load16_be frame 12 = Done ETH_PROTOCOL_IP /\
  exists b, frame !! 23%nat = Some b /\ byte_val b = IP_PROTOCOL_TCP.

(** The entry [n] is one [g_hash_table_lookup_node] accepts for [key]:
    it was stored under [hash_value] and [flow_compare] holds. *)
Definition node_matches (heap : list GInetFlow) (hash_value : Z) (key : GInetFlow)
    (n : GHashNode) : bool :=
  (node_hash n =? hash_value) &&
  match heap !! node_key n with
  | Some f => flow_compare f key
  | None => false
  end.

(** The table holds a record whose key is structurally equal to the
    key of [packet]. *)
Definition key_present (heap : list GInetFlow) (t : GInetFlowTable)
    (packet : GInetFlow) : Prop :=
  exists n f, n ∈ table t /\ heap !! node_key n = Some f /\ tuple f = tuple packet.

(** The call returned a record that was there before it: in the store,
    the addresses below the end are the ones handed out so far. *)
Definition is_hit (heap : list GInetFlow) (r : option nat) : Prop :=
  exists p, r = Some p /\ (p < length heap)%nat.

(** The table holds a record with the key of [packet] in an entry
    stored under the hash a lookup of [packet] uses. *)
Definition key_stored (bo : byte_order) (heap : list GInetFlow) (t : GInetFlowTable)
    (packet : GInetFlow) : Prop :=
  exists n f, n ∈ table t /\ heap !! node_key n = Some f /\
    tuple f = tuple packet /\ node_hash n = real_hash (flow_hash bo packet).1.

(** The record at [p] answers a lookup of the frame of the call [c]. *)
Definition stored (bo : byte_order) (heap : list GInetFlow) (t : GInetFlowTable)
    (c : call) (p : nat) : Prop :=
  exists packet n,
    flow_parse flow_zero (call_frame c) (call_length c) (call_hash c) = Done (true, packet) /\
    n ∈ table t /\ node_key n = p /\
    node_matches heap (real_hash (flow_hash bo packet).1) packet n = true.

(** What the tables the library builds satisfy: every entry points to a
    live record that is its own value, no record is entered twice, no
    two entries could answer the same lookup, the recency list holds
    the records of the hash table, [hits] is a 64-bit number and
    [misses] counts the entries. *)
Record table_ok (heap : list GInetFlow) (t : GInetFlowTable) : Prop := TableOk {
  ok_nodes :
    Forall (fun n => (node_key n < length heap)%nat /\ node_value n = node_key n) (table t);
  ok_nodup : NoDup (node_key <$> table t);
  ok_unique :
    forall i j n m f g,
      table t !! i = Some n -> table t !! j = Some m -> i <> j ->
      heap !! node_key n = Some f -> heap !! node_key m = Some g ->
      node_hash n = node_hash m -> tuple f <> tuple g;
  ok_list : list_ t ≡ₚ node_key <$> table t;
  ok_hits : 0 <= hits t < 2 ^ 64;
  ok_misses : misses t = u64 (Z.of_nat (length (table t)))
}.

(** ** CRC-16/CCITT as the specification words it *)

(** One message bit into the 16-bit register: shift left, and add the
    polynomial [0x1021] when the bit shifted out differs from the
    message bit. *)
Definition crc16_ccitt_bit (reg : Z) (bit : bool) : Z :=
  let top := Z.testbit reg 15 in
  let reg := Z.land (Z.shiftl reg 1) 0xffff in
  if xorb top bit then Z.lxor reg 0x1021 else reg.

Definition crc16_ccitt (reg : Z) (message : list bool) : Z :=
  fold_left crc16_ccitt_bit message reg.

(** The [n] low bits of [v], most significant first. *)
Fixpoint bits_msb_first (n : nat) (v : Z) : list bool :=
  match n with
  | O => []
  | S i => Z.testbit v (Z.of_nat i) :: bits_msb_first i v
  end.

Section HashSpec.

Variable G_BYTE_ORDER : byte_order.

(** The 128 bits of an address array followed by the 16 bits of a port,
    padded with zeros to fill the last 64-bit word. *)
Definition address_port_bits (a : ip_array) (port : Z) : list bool :=
  let '(w0, w1, w2, w3) := a in
  bits_msb_first 32 (host32 G_BYTE_ORDER w0) ++ bits_msb_first 32 (host32 G_BYTE_ORDER w1)
    ++ bits_msb_first 32 (host32 G_BYTE_ORDER w2) ++ bits_msb_first 32 (host32 G_BYTE_ORDER w3)
    ++ bits_msb_first 16 port ++ repeat false 48.

(** The 8 bits of the protocol, padded with zeros to a 64-bit word. *)
Definition protocol_bits (proto : Z) : list bool :=
  bits_msb_first 8 proto ++ repeat false 56.

(** Three CRCs, each from [0xFFFF], combined with XOR. *)
Definition tuple_hash_spec (t : flow_tuple) : Z :=
  Z.lxor
    (Z.lxor (crc16_ccitt 0xffff (address_port_bits (lower_ip t) (lower_port t)))
            (crc16_ccitt 0xffff (address_port_bits (upper_ip t) (upper_port t))))
    (crc16_ccitt 0xffff (protocol_bits (protocol t))).

End HashSpec.

(** ** Frames for the examples *)

Definition byte_of_Z (z : Z) : byte :=
  match Byte.of_N (Z.to_N z) with
  | Some b => b
  | None => x00
  end.

Definition ethernet_header (ethertype : Z) : list byte :=
  map byte_of_Z [0x02; 0; 0; 0; 0; 0x01; 0x02; 0; 0; 0; 0; 0x02;
                 ethertype / 256; ethertype mod 256].

Definition ipv4_header (proto : Z) (src dst : list Z) : list byte :=
  map byte_of_Z ([0x45; 0; 0; 40; 0; 0; 0; 0; 64; proto; 0; 0] ++ src ++ dst).

Definition tcp_header (sport dport : Z) : list byte :=
  map byte_of_Z [sport / 256; sport mod 256; dport / 256; dport mod 256;
                 0; 0; 0; 0; 0; 0; 0; 0; 0x50; 0x10; 0; 0; 0; 0; 0; 0].

(** A TCP segment from 10.0.0.1:443 to 10.0.0.2:51000, no payload. *)
Definition frame_A : list byte :=
  ethernet_header 0x0800 ++ ipv4_header 6 [10; 0; 0; 1] [10; 0; 0; 2] ++ tcp_header 443 51000.

(** The key of [frame_A], as [flow_parse] leaves it in the packet. *)
Definition packet_A : GInetFlow :=
  Flow 0 G_SOCKET_FAMILY_IPV4 0
    (Tuple 6 443 51000
       (("010"%byte, "000"%byte, "000"%byte, "001"%byte), raw32_zero, raw32_zero, raw32_zero)
       (("010"%byte, "000"%byte, "000"%byte, "002"%byte), raw32_zero, raw32_zero, raw32_zero))
    0.

Definition frame_B : list byte :=
  ethernet_header 0x0800 ++ ipv4_header 6 [10; 0; 0; 3] [10; 0; 0; 4] ++ tcp_header 22 40000.

Definition frame_C : list byte :=
  ethernet_header 0x0800 ++ ipv4_header 6 [192; 168; 1; 9] [10; 0; 0; 2] ++ tcp_header 51000 80.

Definition udp_header (sport dport : Z) : list byte :=
  map byte_of_Z [sport / 256; sport mod 256; dport / 256; dport mod 256; 0; 8; 0; 0].

(** A UDP datagram between the hosts of [frame_A], 42 bytes. *)
Definition frame_udp : list byte :=
  ethernet_header 0x0800 ++ ipv4_header 17 [10; 0; 0; 1] [10; 0; 0; 2] ++ udp_header 53 53.

(** The flows A, B and C one after the other, the same flows in another
    order, and A seen twice. *)
Definition calls_ABC : list call :=
  [observe frame_A 1; observe frame_B 2; observe frame_C 3].

Definition calls_CAB : list call :=
  [observe frame_C 4; observe frame_A 5; observe frame_B 6].

Definition calls_ABA : list call :=
  [observe frame_A 1; observe frame_B 2; observe frame_A 3].

(** ** Notions for the further properties *)

(** The offsets of a frame [flow_parse] reads: the ethertype, the
    protocol, the two addresses and the two ports. *)
Definition key_offsets : list nat :=
  [12; 13; 23; 26; 27; 28; 29; 30; 31; 32; 33; 34; 35; 36; 37]%nat.

(** The key with the lower and the upper side changed over. *)
Definition swap_sides (k : flow_tuple) : flow_tuple :=
  Tuple (protocol k) (upper_port k) (lower_port k) (upper_ip k) (lower_ip k).

(** The visitor that notes the flows it is called on, in order. *)
Definition note_flow (flow : nat) (visited : list nat) : list nat :=
  visited ++ [flow].

(** How many calls of a run returned a record. *)
Definition returned (rs : list (option nat)) : nat :=
  length (filter (fun r => is_Some r) rs).

(** The text GIO gives for the four bytes of an IPv4 address. *)
Definition dotted (w : raw32) : string :=
  let '(a, b, c, d) := w in
  (decimal a ++ "." ++ decimal b ++ "." ++ decimal c ++ "." ++ decimal d)%string.

(** The frame of [frame_A] with another sender address, time to live,
    checksum and flags: the bytes [flow_parse] reads are the same. *)
Definition frame_A_other : list byte :=
  map byte_of_Z [0x02; 0; 0; 0; 0; 0x09; 0x02; 0; 0; 0; 0; 0x07; 0x08; 0x00]
  ++ map byte_of_Z [0x45; 0x10; 0; 52; 0x12; 0x34; 0x40; 0; 17; 6; 0xab; 0xcd;
                    10; 0; 0; 1; 10; 0; 0; 2]
  ++ map byte_of_Z [443 / 256; 443 mod 256; 51000 / 256; 51000 mod 256;
                    0; 0; 0; 1; 0; 0; 0; 2; 0x50; 0x18; 0x10; 0; 0; 0; 0; 0].

(** A segment of a host to itself: both addresses 10.0.0.1, both ports 7. *)
Definition frame_self : list byte :=
  ethernet_header 0x0800 ++ ipv4_header 6 [10; 0; 0; 1] [10; 0; 0; 1] ++ tcp_header 7 7.

(** ** The flow hash over the bytes of the key *)

(** The eight bits of a byte, most significant first. *)
Definition byte_bits (b : byte) : list bool := bits_msb_first 8 (byte_val b).

(** The 32 bits of an address word in the order the CRC takes them:
    the most significant byte of the number first.  On a big-endian
    host that is the byte at the lowest address, on a little-endian
    host the byte at the highest. *)
Definition word_bits (bo : byte_order) (w : raw32) : list bool :=
  let '(a, b, c, d) := w in
  match bo with
  | G_BIG_ENDIAN => byte_bits a ++ byte_bits b ++ byte_bits c ++ byte_bits d
  | G_LITTLE_ENDIAN => byte_bits d ++ byte_bits c ++ byte_bits b ++ byte_bits a
  end.

(** The message of one side: three 64-bit words, the four address
    words, then the port in the top 16 bits of a word whose other 48
    bits are zero. *)
Definition side_message (bo : byte_order) (a : ip_array) (port : Z) : list bool :=
  let '(w0, w1, w2, w3) := a in
  word_bits bo w0 ++ word_bits bo w1 ++ word_bits bo w2 ++ word_bits bo w3
    ++ bits_msb_first 16 port ++ repeat false 48.

(** The message of the protocol: one 64-bit word, the protocol in its
    top 8 bits, the other 56 bits zero. *)
Definition protocol_message (proto : Z) : list bool :=
  bits_msb_first 8 proto ++ repeat false 56.

Definition tuple_hash_bytes (bo : byte_order) (k : flow_tuple) : Z :=
  Z.lxor
    (Z.lxor (crc16_ccitt 0xffff (side_message bo (lower_ip k) (lower_port k)))
            (crc16_ccitt 0xffff (side_message bo (upper_ip k) (upper_port k))))
    (crc16_ccitt 0xffff (protocol_message (protocol k))).

(** The hash read off the words "a CRC over the address plus the port,
    a CRC over the protocol" and nothing more: the 16 bytes of the
    address as they lie in memory, the 16 bits of the port, the 8 bits
    of the protocol, no bit added. *)
Definition tuple_hash_unpadded (k : flow_tuple) : Z :=
  Z.lxor
    (Z.lxor
       (crc16_ccitt 0xffff
          (concat (byte_bits <$> ip_array_bytes (lower_ip k)) ++ bits_msb_first 16 (lower_port k)))
       (crc16_ccitt 0xffff
          (concat (byte_bits <$> ip_array_bytes (upper_ip k)) ++ bits_msb_first 16 (upper_port k))))
    (crc16_ccitt 0xffff (bits_msb_first 8 (protocol k))).

(** The key of [frame_self], as [flow_parse] leaves it in the packet. *)
Definition packet_self : GInetFlow :=
  Flow 0 G_SOCKET_FAMILY_IPV4 0
    (Tuple 6 7 7
       (("010"%byte, "000"%byte, "000"%byte, "001"%byte), raw32_zero, raw32_zero, raw32_zero)
       (("010"%byte, "000"%byte, "000"%byte, "001"%byte), raw32_zero, raw32_zero, raw32_zero))
    0.

(** The key of [frame_B]. *)
Definition packet_B : GInetFlow :=
  Flow 0 G_SOCKET_FAMILY_IPV4 0
    (Tuple 6 22 40000
       (("010"%byte, "000"%byte, "000"%byte, "003"%byte), raw32_zero, raw32_zero, raw32_zero)
       (("010"%byte, "000"%byte, "000"%byte, "004"%byte), raw32_zero, raw32_zero, raw32_zero))
    0.

(** The store and the table after [frame_A] was looked up at time 1
    with the hash 5 handed in: one record, one entry stored under 5. *)
Definition store_A5 : list GInetFlow :=
  [Flow 1 G_SOCKET_FAMILY_IPV4 5 (tuple packet_A) 0].

Definition table_A5 : GInetFlowTable := Table [Node 5 0%nat 0%nat] [0%nat] 0 1.

(** * Proofs *)

(** ** Bytes and comparisons *)

Lemma byte_val_range (b : byte) : 0 <= byte_val b < 256.
Proof.
  unfold byte_val. pose proof (Byte.to_N_bounded b). lia.
Qed.

Lemma byte_val_inj (a b : byte) : byte_val a = byte_val b -> a = b.
Proof.
  unfold byte_val. intros H. apply N2Z.inj in H.
  assert (Some a = Some b) as [= ->]; [|done].
  by rewrite <- !Byte.of_to_N, H.
Qed.

Lemma memcmp_refl (s : list byte) (n : nat) : memcmp s s n = 0.
Proof.
  revert n. induction s as [|a s IH]; intros [|n]; simpl; try done.
  rewrite Z.ltb_irrefl. apply IH.
Qed.

Lemma memcmp_eq_cons (a b : byte) s1 s2 n :
  memcmp (a :: s1) (b :: s2) (S n) = 0 -> a = b /\ memcmp s1 s2 n = 0.
Proof.
  simpl. destruct (Z.ltb_spec (byte_val a) (byte_val b)); [done|].
  destruct (Z.ltb_spec (byte_val b) (byte_val a)); [done|].
  intros H1. split; [|done]. apply byte_val_inj. lia.
Qed.

Lemma memcmp_ip_array (a b : ip_array) :
  memcmp (ip_array_bytes a) (ip_array_bytes b) 16 = 0 <-> a = b.
Proof.
  split; [|intros ->; apply memcmp_refl].
  destruct a as [[[[[[a0 a1] a2] a3] [[[a4 a5] a6] a7]] [[[a8 a9] a10] a11]] [[[a12 a13] a14] a15]].
  destruct b as [[[[[[b0 b1] b2] b3] [[[b4 b5] b6] b7]] [[[b8 b9] b10] b11]] [[[b12 b13] b14] b15]].
  cbn [ip_array_bytes raw32_bytes app]. intros H.
  repeat (apply memcmp_eq_cons in H as [-> H]). done.
Qed.

Lemma flow_compare_true (f1 f2 : GInetFlow) :
  flow_compare f1 f2 = true <-> tuple f1 = tuple f2.
Proof.
  unfold flow_compare.
  destruct (tuple f1) as [p1 lp1 up1 li1 ui1], (tuple f2) as [p2 lp2 up2 li2 ui2]; simpl.
  split.
  - destruct (Z.eqb_spec p1 p2); [|done].
    destruct (Z.eqb_spec lp1 lp2); [|done].
    destruct (Z.eqb_spec up1 up2); [|done].
    destruct (Z.eqb_spec (memcmp (ip_array_bytes ui1) (ip_array_bytes ui2) 16) 0) as [Hu|]; [|done].
    destruct (Z.eqb_spec (memcmp (ip_array_bytes li1) (ip_array_bytes li2) 16) 0) as [Hl|]; [|done].
    apply memcmp_ip_array in Hu, Hl. by subst.
  - intros [= -> -> -> -> ->]. by rewrite !Z.eqb_refl, !memcmp_refl.
Qed.

(** ** The parser *)

Lemma be16_inj a b c d : be16 a b = be16 c d -> a = c /\ b = d.
Proof.
  unfold be16. intros H.
  pose proof (byte_val_range a). pose proof (byte_val_range b).
  pose proof (byte_val_range c). pose proof (byte_val_range d).
  split; apply byte_val_inj; lia.
Qed.

Lemma GINT32_FROM_BE_inj (v w : raw32) : GINT32_FROM_BE v = GINT32_FROM_BE w -> v = w.
Proof.
  destruct v as [[[a b] c] d], w as [[[a' b'] c'] d']. unfold GINT32_FROM_BE. intros H.
  pose proof (byte_val_range a). pose proof (byte_val_range b).
  pose proof (byte_val_range c). pose proof (byte_val_range d).
  pose proof (byte_val_range a'). pose proof (byte_val_range b').
  pose proof (byte_val_range c'). pose proof (byte_val_range d').
  assert (a = a') as -> by (apply byte_val_inj; lia).
  assert (b = b') as -> by (apply byte_val_inj; lia).
  assert (c = c') as -> by (apply byte_val_inj; lia).
  assert (d = d') as -> by (apply byte_val_inj; lia).
  done.
Qed.

#[local] Arguments byte_val : simpl never.
#[local] Arguments be16 : simpl never.
#[local] Arguments GINT32_FROM_BE : simpl never.
#[local] Arguments u32 : simpl never.
#[local] Arguments Z.sub : simpl never.
#[local] Arguments Z.ltb : simpl never.
#[local] Arguments Z.eqb : simpl never.

Lemma flow_parse_length f0 frame length hash f :
  flow_parse f0 frame length hash = Done (true, f) -> (38 <= Datatypes.length frame)%nat.
Proof.
  intros H.
  do 38 (destruct frame as [|? frame];
    [exfalso; revert H; unfold flow_parse, flow_parse_ipv4, flow_parse_tcp; simpl;
     repeat case_match; done|]).
  simpl. lia.
Qed.

Lemma flow_parse_reverse f0 frame length hash f :
  flow_parse f0 frame length hash = Done (true, f) ->
  flow_parse f0 (reverse_direction frame) length hash = Done (true, f).
Proof.
  intros H. pose proof (flow_parse_length _ _ _ _ _ H) as Hlen.
  do 38 (destruct frame as [|? frame]; [simpl in Hlen; lia|]). clear Hlen.
  revert H. unfold reverse_direction, flow_parse, flow_parse_ipv4, flow_parse_tcp. simpl.
  destruct (_ =? ETH_PROTOCOL_IP); [|done].
  destruct (_ <? sizeof_ip_hdr_t); [done|].
  destruct (_ =? IP_PROTOCOL_TCP); [|done].
  destruct (_ <? sizeof_tcp_hdr_t); [done|].
  set (sip := GINT32_FROM_BE _). set (dip := GINT32_FROM_BE _).
  set (sport := be16 _ _). set (dport := be16 _ _).
  intros <-. 
  destruct (Z.ltb_spec sip dip), (Z.ltb_spec dip sip), (Z.ltb_spec sport dport), (Z.ltb_spec dport sport); try lia; try done.
  all: try (assert (sport = dport) as Hp by lia; apply be16_inj in Hp as [-> ->]).
  all: try (assert (sip = dip) as Hi by lia; apply GINT32_FROM_BE_inj in Hi as [= -> -> -> ->]).
  all: try done.
Qed.

Ltac parse_loads :=
  unfold load16_be, load32_raw, load8;
  cbn [lookup list_lookup mbind outcome_bind obind drop Nat.add].

(** What [flow_parse] answers when the call is honest about the frame:
    [length] is at least the Ethernet header and no more than the bytes
    there are. *)
Lemma flow_parse_defined (frame : list byte) (len h : Z) :
  14 <= len <= Z.of_nat (length frame) -> len < 2 ^ 32 ->
  exists ok f, flow_parse flow_zero frame len h = Done (ok, f) /\
    (ok = true <->
     load16_be frame 12 = Done ETH_PROTOCOL_IP /\ 54 <= len /\
     exists b, frame !! 23%nat = Some b /\ byte_val b = IP_PROTOCOL_TCP).
Proof.
  intros Hlen Hmax.
  do 14 (destruct frame as [|? frame]; [cbn [length] in Hlen; lia|]).
  unfold flow_parse. parse_loads.
  set (ethertype := be16 _ _).
  assert (forall z, 14 <= z -> z <= len -> u32 (len - z) = len - z) as Hu32
    by (intros z ? ?; unfold u32; apply Z.mod_small; lia).
  destruct (Z.eqb_spec ethertype ETH_PROTOCOL_IP) as [He|He].
  2: { do 2 eexists. split; [done|]. split; [done|]. intros [[= ?] _]. done. }
  unfold flow_parse_ipv4, sizeof_ethernet_hdr_t, sizeof_ip_hdr_t.
  assert (u32 (len - 14) = len - 14) as -> by (unfold u32; apply Z.mod_small; lia).
  destruct (Z.ltb_spec (len - 14) 20) as [Hip|Hip].
  { do 2 eexists. split; [done|]. split; [done|]. intros (_ & ? & _). lia. }
  do 20 (destruct frame as [|? frame]; [cbn [length] in Hlen; lia|]).
  parse_loads.
  match goal with |- context [byte_val ?b =? IP_PROTOCOL_TCP] => set (proto := b) end.
  destruct (Z.eqb_spec (byte_val proto) IP_PROTOCOL_TCP) as [Hpr|Hpr].
  2: { do 2 eexists. split; [done|]. split; [done|]. intros (_ & _ & pb & [= <-] & ?). done. }
  unfold flow_parse_tcp, sizeof_tcp_hdr_t.
  assert (u32 (len - 14 - 20) = len - 34) as -> by (unfold u32; rewrite Z.mod_small; lia).
  destruct (Z.ltb_spec (len - 34) 20) as [Htcp|Htcp].
  { do 2 eexists. split; [done|]. split; [done|]. intros (_ & ? & _). lia. }
  do 4 (destruct frame as [|? frame]; [cbn [length] in Hlen; lia|]).
  parse_loads.
  assert (load16_be_eth : Done ethertype = Done ETH_PROTOCOL_IP) by (by rewrite He).
  destruct (_ <? _); do 2 eexists; (split; [done|]); (split; [|done]); intros _;
    (split; [done|]); (split; [lia|]); by exists proto.
Qed.

(** The parse functions write the key and nothing else; [flow_parse]
    sets the family and the hash it was given before. *)
Lemma flow_parse_tcp_keeps f data len ok f' :
  flow_parse_tcp f data len = Done (ok, f') ->
  hash f' = hash f /\ family f' = family f /\ timestamp f' = timestamp f.
Proof.
  unfold flow_parse_tcp. destruct (len <? sizeof_tcp_hdr_t); [by intros [= <- <-]|].
  destruct (load16_be data 0) as [sport|]; [|done].
  destruct (load16_be data 2) as [dport|]; [|done].
  cbn [mbind outcome_bind obind]. by destruct (sport <? dport); intros [= <- <-].
Qed.

Lemma flow_parse_ipv4_keeps f data len ok f' :
  flow_parse_ipv4 f data len = Done (ok, f') ->
  hash f' = hash f /\ family f' = family f /\ timestamp f' = timestamp f.
Proof.
  unfold flow_parse_ipv4. destruct (len <? sizeof_ip_hdr_t); [by intros [= <- <-]|].
  destruct (load32_raw data 12) as [saddr|]; [|done].
  destruct (load32_raw data 16) as [daddr|]; [|done].
  destruct (load8 data 9) as [proto|]; [|done].
  cbn [mbind outcome_bind obind].
  destruct (byte_val proto =? IP_PROTOCOL_TCP).
  - intros H%flow_parse_tcp_keeps. by destruct (_ <? _).
  - intros [= <- <-]. by destruct (_ <? _).
Qed.

Lemma flow_parse_hash frame len h packet :
  flow_parse flow_zero frame len h = Done (true, packet) ->
  hash packet = h /\ family packet = G_SOCKET_FAMILY_IPV4 /\ timestamp packet = 0.
Proof.
  unfold flow_parse. destruct (load16_be frame 12) as [ethertype|]; [|done].
  cbn [mbind outcome_bind obind].
  destruct (ethertype =? ETH_PROTOCOL_IP); [|done].
  by intros H%flow_parse_ipv4_keeps.
Qed.

(** ** The hash *)

Lemma land_shiftr_1 (a n : Z) : 0 <= n -> Z.land (Z.shiftr a n) 1 = Z.b2z (Z.testbit a n).
Proof.
  intros Hn. rewrite Z.testbit_spec' by done.
  change 1 with (Z.ones 1). rewrite Z.land_ones by lia.
  by rewrite Z.shiftr_div_pow2.
Qed.

Lemma land_lxor_distr (a b c : Z) :
  Z.land (Z.lxor a b) c = Z.lxor (Z.land a c) (Z.land b c).
Proof.
  apply Z.bits_inj'. intros n Hn.
  rewrite Z.land_spec, !Z.lxor_spec, !Z.land_spec.
  by destruct (Z.testbit a n), (Z.testbit b n), (Z.testbit c n).
Qed.

Lemma crc16_step_spec (iv b j : Z) :
  0 <= j -> crc16_step iv b j = crc16_ccitt_bit iv (Z.testbit b j).
Proof.
  intros Hj. unfold crc16_step, crc16_ccitt_bit, crc16_poly.
  rewrite !land_shiftr_1 by lia.
  rewrite land_lxor_distr.
  destruct (Z.testbit iv 15), (Z.testbit b j); simpl Z.b2z; simpl xorb; cbn [Z.lxor Z.eqb Pos.lxor];
    try (change (Z.land 0 65535) with 0; by rewrite Z.lxor_0_r); done.
Qed.

Lemma crc16_inner_spec (n : nat) (iv b : Z) :
  crc16_inner n iv b = crc16_ccitt iv (bits_msb_first n b).
Proof.
  revert iv. induction n as [|j IH]; intros iv; [done|].
  simpl. rewrite IH, crc16_step_spec by lia. done.
Qed.

Lemma crc16_ccitt_app (reg : Z) (m1 m2 : list bool) :
  crc16_ccitt reg (m1 ++ m2) = crc16_ccitt (crc16_ccitt reg m1) m2.
Proof. apply fold_left_app. Qed.

Lemma bits_msb_first_ext (n : nat) (v w : Z) :
  (forall i, 0 <= i < Z.of_nat n -> Z.testbit v i = Z.testbit w i) ->
  bits_msb_first n v = bits_msb_first n w.
Proof.
  induction n as [|n IH]; intros H; [done|].
  simpl. rewrite (H (Z.of_nat n)) by lia. f_equal. apply IH. intros i Hi. apply H. lia.
Qed.

Lemma bits_msb_first_add (m n : nat) (v : Z) :
  bits_msb_first (m + n) v = bits_msb_first m (Z.shiftr v (Z.of_nat n)) ++ bits_msb_first n v.
Proof.
  induction m as [|m IH]; [done|].
  simpl. rewrite IH. f_equal. rewrite Z.shiftr_spec by lia. f_equal. lia.
Qed.

Lemma bits_msb_first_zero (n : nat) : bits_msb_first n 0 = repeat false n.
Proof.
  induction n as [|n IH]; [done|]. simpl. by rewrite IH, Z.testbit_0_l.
Qed.

Lemma crc16_outer_S (i : nat) (iv p : Z) :
  crc16_outer (S i) iv p
  = crc16_outer i (crc16_inner 8 iv (Z.land (Z.shiftr p (Z.of_nat i * 8)) 255)) p.
Proof. unfold crc16_outer at 1. fold crc16_outer. exact eq_refl. Qed.

Lemma crc16_outer_spec (n : nat) (iv p : Z) :
  crc16_outer n iv p = crc16_ccitt iv (bits_msb_first (8 * n) p).
Proof.
  revert iv. induction n as [|i IH]; intros iv; [reflexivity|].
  rewrite crc16_outer_S, IH, crc16_inner_spec.
  replace (8 * S i)%nat with (8 + 8 * i)%nat by lia.
  rewrite bits_msb_first_add, crc16_ccitt_app. f_equal. f_equal.
  apply bits_msb_first_ext. intros j Hj.
  change 255 with (Z.ones 8). rewrite Z.land_spec, Z.ones_spec_low by lia.
  rewrite andb_true_r. f_equal. f_equal. lia.
Qed.

Lemma crc16_spec (iv p : Z) : crc16 iv p = crc16_ccitt iv (bits_msb_first 64 p).
Proof. apply crc16_outer_spec. Qed.

Lemma crc16_step_range (iv b j : Z) : 0 <= crc16_step iv b j < 65536.
Proof.
  unfold crc16_step. change 65535 with (Z.ones 16). rewrite Z.land_ones by lia.
  apply Z.mod_pos_bound. lia.
Qed.

Lemma crc16_inner_range (n : nat) (iv b : Z) :
  0 <= iv < 65536 -> 0 <= crc16_inner n iv b < 65536.
Proof.
  revert iv. induction n as [|n IH]; intros iv Hiv; [exact Hiv|].
  cbn [crc16_inner]. apply IH, crc16_step_range.
Qed.

Lemma crc16_outer_range (n : nat) (iv p : Z) :
  0 <= iv < 65536 -> 0 <= crc16_outer n iv p < 65536.
Proof.
  revert iv. induction n as [|n IH]; intros iv Hiv; [exact Hiv|].
  rewrite crc16_outer_S. apply IH, crc16_inner_range, Hiv.
Qed.

Lemma crc16_range (iv p : Z) : 0 <= iv < 65536 -> 0 <= crc16 iv p < 65536.
Proof. apply crc16_outer_range. Qed.

Lemma lxor_range (a b : Z) (n : Z) :
  0 <= n -> 0 <= a < 2 ^ n -> 0 <= b < 2 ^ n -> 0 <= Z.lxor a b < 2 ^ n.
Proof.
  intros Hn Ha Hb.
  assert (0 <= Z.lxor a b) by (apply Z.lxor_nonneg; lia).
  split; [done|].
  destruct (Z.eq_dec (Z.lxor a b) 0) as [->|Hne]; [lia|].
  assert (0 < n).
  { destruct (Z.eq_dec n 0) as [->|]; [|lia].
    assert (a = 0) as -> by lia. assert (b = 0) as -> by lia. done. }
  apply Z.log2_lt_pow2; [lia|].
  eapply Z.le_lt_trans; [apply Z.log2_lxor; lia|].
  apply Z.max_lub_lt.
  - destruct (Z.eq_dec a 0) as [->|]; [simpl; lia|]. apply Z.log2_lt_pow2; lia.
  - destruct (Z.eq_dec b 0) as [->|]; [simpl; lia|]. apply Z.log2_lt_pow2; lia.
Qed.

Lemma host32_range bo (w : raw32) : 0 <= host32 bo w < 2 ^ 32.
Proof.
  destruct w as [[[a b] c] d]. unfold host32.
  pose proof (byte_val_range a). pose proof (byte_val_range b).
  pose proof (byte_val_range c). pose proof (byte_val_range d).
  destruct bo; lia.
Qed.

Lemma testbit_high (v : Z) (n i : Z) : 0 <= v < 2 ^ n -> n <= i -> Z.testbit v i = false.
Proof.
  intros Hv Hi. destruct (Z.eq_dec v 0) as [->|]; [apply Z.testbit_0_l|].
  apply Z.bits_above_log2; [lia|].
  assert (0 <= n) by (destruct (Z.le_gt_cases 0 n); [done|]; rewrite Z.pow_neg_r in Hv; lia).
  assert (Z.log2 v < n) by (apply Z.log2_lt_pow2; lia). lia.
Qed.

Lemma bits_shifted (m n : nat) (v : Z) :
  (m + n = 64)%nat ->
  bits_msb_first 64 (u64 (Z.shiftl v (Z.of_nat n))) = bits_msb_first m v ++ repeat false n.
Proof.
  intros H. rewrite <- H, bits_msb_first_add. f_equal.
  - apply bits_msb_first_ext. intros i Hi. unfold u64.
    rewrite Z.shiftr_spec by lia.
    rewrite Z.mod_pow2_bits_low by lia.
    rewrite Z.shiftl_spec by lia. f_equal. lia.
  - rewrite <- bits_msb_first_zero. apply bits_msb_first_ext. intros i Hi. unfold u64.
    rewrite Z.mod_pow2_bits_low by lia.
    rewrite Z.shiftl_spec_low by lia. by rewrite Z.testbit_0_l.
Qed.

Lemma bits_ip_pair bo (hi lo : raw32) :
  bits_msb_first 64 (ip_pair bo hi lo)
  = bits_msb_first 32 (host32 bo hi) ++ bits_msb_first 32 (host32 bo lo).
Proof.
  unfold ip_pair. pose proof (host32_range bo lo) as Hlo.
  generalize dependent (host32 bo lo). generalize (host32 bo hi). intros h l Hl.
  change 64%nat with (32 + 32)%nat. rewrite bits_msb_first_add. f_equal.
  - apply bits_msb_first_ext. intros i Hi. unfold u64.
    rewrite Z.shiftr_spec, Z.lor_spec by lia.
    rewrite Z.mod_pow2_bits_low by lia.
    rewrite Z.shiftl_spec by lia.
    rewrite (testbit_high l 32) by lia. rewrite orb_false_r. f_equal. lia.
  - apply bits_msb_first_ext. intros i Hi. unfold u64.
    rewrite Z.lor_spec. rewrite Z.mod_pow2_bits_low by lia.
    rewrite Z.shiftl_spec_low by lia. done.
Qed.

Lemma crc16_ccitt_range (m : list bool) (reg : Z) :
  0 <= reg < 65536 -> 0 <= crc16_ccitt reg m < 65536.
Proof.
  revert reg. induction m as [|b m IH]; intros reg Hreg; [exact Hreg|].
  apply IH. unfold crc16_ccitt_bit.
  assert (0 <= Z.land (Z.shiftl reg 1) 65535 < 65536) as Hs.
  { change 65535 with (Z.ones 16). rewrite Z.land_ones by lia. apply Z.mod_pos_bound. lia. }
  destruct (xorb _ b); [|exact Hs].
  apply (lxor_range _ _ 16); lia.
Qed.

Lemma flow_hash_computed bo (f : GInetFlow) :
  hash f = 0 ->
  flow_hash bo f = (tuple_hash_spec bo (tuple f), set_hash f (tuple_hash_spec bo (tuple f))).
Proof.
  intros Hz. unfold flow_hash. rewrite Hz. change (negb (0 =? 0)) with false. cbv iota.
  unfold tuple_hash_spec, address_port_bits, protocol_bits.
  destruct (lower_ip (tuple f)) as [[[l0 l1] l2] l3].
  destruct (upper_ip (tuple f)) as [[[u0 u1] u2] u3].
  cbv zeta.
  rewrite !crc16_spec, !bits_ip_pair.
  rewrite (bits_shifted 16 48), (bits_shifted 16 48), (bits_shifted 8 56) by done.
  rewrite <- !crc16_ccitt_app, <- !app_assoc.
  set (a := crc16_ccitt _ _). set (b := crc16_ccitt _ _). set (c := crc16_ccitt _ _).
  assert (u16 (Z.lxor (Z.lxor a b) c) = Z.lxor (Z.lxor a b) c) as ->; [|done].
  unfold u16. apply Z.mod_small.
  change (2 ^ 16) with 65536.
  assert (0 <= a < 65536) by (apply crc16_ccitt_range; lia).
  assert (0 <= b < 65536) by (apply crc16_ccitt_range; lia).
  assert (0 <= c < 65536) by (apply crc16_ccitt_range; lia).
  apply (lxor_range _ _ 16); [lia| |lia]. apply (lxor_range _ _ 16); lia.
Qed.

(** ** The table *)

Lemma flow_compare_tuple (f g f' g' : GInetFlow) :
  tuple f = tuple f' -> tuple g = tuple g' -> flow_compare f g = flow_compare f' g'.
Proof. unfold flow_compare. by intros -> ->. Qed.

Lemma set_hash_same (f : GInetFlow) : set_hash f (hash f) = f.
Proof. by destruct f. Qed.

Lemma insert_app_last {A} (l : list A) (x y : A) :
  <[length l := y]> (l ++ [x]) = l ++ [y].
Proof. induction l as [|a l IH]; [done|]. simpl. by rewrite IH. Qed.

Lemma lookup_app_last {A} (l : list A) (x : A) : (l ++ [x]) !! length l = Some x.
Proof. induction l as [|a l IH]; [done|]. apply IH. Qed.

Section TableProofs.

Variable bo : byte_order.

Lemma flow_hash_cached (f : GInetFlow) : hash f <> 0 -> flow_hash bo f = (hash f, f).
Proof.
  intros H. unfold flow_hash. destruct (Z.eqb_spec (hash f) 0); [done|]. reflexivity.
Qed.

Lemma flow_hash_tuple (f : GInetFlow) : tuple (flow_hash bo f).2 = tuple f.
Proof.
  destruct (Z.eq_dec (hash f) 0) as [Hz|Hz].
  - by rewrite flow_hash_computed.
  - by rewrite flow_hash_cached.
Qed.

(** Hashing what [flow_hash] left behind gives the same hash and
    changes nothing. *)
Lemma flow_hash_again (f g : GInetFlow) :
  hash g = hash (flow_hash bo f).2 -> tuple g = tuple f ->
  flow_hash bo g = ((flow_hash bo f).1, g).
Proof.
  intros Hh Ht.
  destruct (Z.eq_dec (hash f) 0) as [Hz|Hz].
  - rewrite (flow_hash_computed bo f Hz) in *. cbn [fst snd set_hash hash] in *.
    destruct (Z.eq_dec (hash g) 0) as [Hg|Hg].
    + rewrite (flow_hash_computed bo g Hg), Ht, <- Hh. by rewrite set_hash_same.
    + rewrite (flow_hash_cached g Hg). by rewrite Hh.
  - rewrite (flow_hash_cached f Hz) in *. cbn [fst snd] in *.
    rewrite flow_hash_cached by congruence. by rewrite Hh.
Qed.

Lemma flow_hash_ext (f g : GInetFlow) :
  hash f = hash g -> tuple f = tuple g -> (flow_hash bo f).1 = (flow_hash bo g).1.
Proof.
  intros Hh Ht. destruct (Z.eq_dec (hash f) 0) as [Hz|Hz].
  - rewrite !flow_hash_computed by congruence. cbn [fst]. by rewrite Ht.
  - rewrite !flow_hash_cached by congruence. done.
Qed.

#[local] Opaque flow_hash.

Lemma node_matches_tuple heap heap' hv key key' n :
  (forall f, heap !! node_key n = Some f ->
             exists f', heap' !! node_key n = Some f' /\ tuple f' = tuple f) ->
  (node_key n < length heap)%nat ->
  tuple key = tuple key' ->
  node_matches heap' hv key' n = node_matches heap hv key n.
Proof.
  intros Hheap Hlt Hk. unfold node_matches. f_equal.
  destruct (lookup_lt_is_Some_2 heap (node_key n) Hlt) as [f Hf].
  destruct (Hheap f Hf) as (f' & Hf' & Ht). rewrite Hf, Hf'.
  by apply flow_compare_tuple.
Qed.

Lemma lookup_node_spec heap nodes hv key :
  Forall (fun n => (node_key n < length heap)%nat) nodes ->
  exists r, g_hash_table_lookup_node heap nodes hv key = Done r /\
    match r with
    | Some i => exists n, nodes !! i = Some n /\ node_matches heap hv key n = true
    | None => Forall (fun n => node_matches heap hv key n = false) nodes
    end.
Proof.
  induction 1 as [|n nodes Hn Hnodes IH]; [by exists None|].
  destruct IH as (r & Hr & Hspec).
  destruct (lookup_lt_is_Some_2 heap (node_key n) Hn) as [f Hf].
  cbn [g_hash_table_lookup_node]. unfold deref. rewrite Hf, Hr.
  destruct (node_matches heap hv key n) eqn:Hm; unfold node_matches in Hm; rewrite Hf in Hm.
  - exists (Some 0%nat). split.
    + apply andb_true_iff in Hm as [-> Hc]. simpl. by rewrite Hc.
    + exists n. split; [done|]. unfold node_matches. by rewrite Hf.
  - exists (option_map S r). split.
    + destruct (node_hash n =? hv); simpl in *; [by rewrite Hm|done].
    + destruct r as [i|]; simpl.
      * destruct Hspec as (m & Hm1 & Hm2). by exists m.
      * constructor; [|done]. unfold node_matches. by rewrite Hf.
Qed.

Lemma lookup_node_ext heap heap' nodes hv key key' :
  Forall (fun n => (node_key n < length heap)%nat) nodes ->
  (forall i f, heap !! i = Some f -> exists f', heap' !! i = Some f' /\ tuple f' = tuple f) ->
  tuple key = tuple key' ->
  g_hash_table_lookup_node heap' nodes hv key' = g_hash_table_lookup_node heap nodes hv key.
Proof.
  intros Hv Hheap Hk. induction Hv as [|n nodes Hn Hnodes IH]; [done|].
  cbn [g_hash_table_lookup_node]. rewrite IH.
  destruct (lookup_lt_is_Some_2 heap (node_key n) Hn) as [f Hf].
  destruct (Hheap _ f Hf) as (f' & Hf' & Ht).
  unfold deref. rewrite Hf, Hf'. simpl.
  by rewrite (flow_compare_tuple f' key' f key).
Qed.

Lemma new_flow_tuple packet : tuple (new_flow bo packet) = tuple packet.
Proof. unfold new_flow, flow_init. simpl. apply flow_hash_tuple. Qed.

Lemma get_full_step now heap t frame len h0 ts packet :
  table_ok heap t ->
  flow_parse flow_zero frame len h0 = Done (true, packet) ->
  let hv := real_hash (flow_hash bo packet).1 in
  let stamp := if ts =? 0 then now else ts in
  (exists n f, n ∈ table t /\ node_matches heap hv packet n = true /\
      heap !! node_key n = Some f /\
      g_inet_flow_get_full bo now heap t frame len h0 ts
      = Done (Some (node_key n), <[node_key n := set_timestamp f stamp]> heap,
              Table (table t) (node_key n :: g_list_remove (list_ t) (node_key n))
                    (u64 (hits t + 1)) (misses t)))
  \/ (Forall (fun n => node_matches heap hv packet n = false) (table t) /\
      g_inet_flow_get_full bo now heap t frame len h0 ts
      = Done (Some (length heap), heap ++ [set_timestamp (new_flow bo packet) stamp],
              Table (Node hv (length heap) (length heap) :: table t)
                    (length heap :: list_ t) (hits t) (u64 (misses t + 1)))).
Proof.
  intros Hok Hparse hv stamp.
  assert (Forall (fun n => (node_key n < length heap)%nat) (table t)) as Hvalid.
  { eapply Forall_impl; [apply (ok_nodes _ _ Hok)|]. by intros n [? ?]. }
  unfold g_inet_flow_get_full. rewrite Hparse. cbn -[flow_hash lookup insert].
  unfold g_hash_table_lookup.
  pose proof (flow_hash_tuple packet) as Htup.
  pose proof (new_flow_tuple packet) as Hntup.
  pose proof (flow_hash_again packet (new_flow bo packet) eq_refl Hntup) as Hnew.
  unfold new_flow in *. subst hv.
  destruct (flow_hash bo packet) as [h packet'] eqn:Hh. cbn [fst snd] in *.
  destruct (lookup_node_spec heap (table t) (real_hash h) packet' Hvalid) as (r & Hr & Hspec).
  rewrite Hr. cbn -[flow_hash lookup insert]. destruct r as [i|].
  - left. destruct Hspec as (n & Hi & Hm). exists n.
    assert (n ∈ table t) as Hin by (by eapply list_elem_of_lookup_2).
    pose proof (ok_nodes _ _ Hok) as Hnodes.
    rewrite Forall_forall in Hnodes. destruct (Hnodes n Hin) as [Hlt Hval].
    destruct (lookup_lt_is_Some_2 heap (node_key n) Hlt) as [f Hf].
    exists f. split; [done|]. split.
    { rewrite <- Hm. apply node_matches_tuple; [|done|done]. intros g Hg. by exists g. }
    split; [done|].
    rewrite Hi. cbn -[flow_hash lookup insert]. rewrite Hval. unfold deref. rewrite Hf. done.
  - right.
    assert (Forall (fun n => node_matches heap (real_hash h) packet n = false) (table t)) as Hnone.
    { rewrite Forall_forall in Hspec, Hvalid |- *. intros n Hin. rewrite <- (Hspec n Hin).
      symmetry. apply node_matches_tuple; [|by apply Hvalid|done]. intros g Hg. by exists g. }
    split; [done|].
    rewrite insert_app_last. unfold g_hash_table_replace, deref.
    rewrite lookup_app_last. cbn -[flow_hash lookup insert]. rewrite Hnew. rewrite insert_app_last.
    rewrite (lookup_node_ext heap _ _ _ packet').
    + rewrite Hr. cbn -[flow_hash lookup insert]. unfold deref. rewrite lookup_app_last.
      cbn -[flow_hash lookup insert]. by rewrite insert_app_last.
    + done.
    + intros i f Hf. exists f. split; [|done]. by apply lookup_app_l_Some.
    + by rewrite Hntup.
Qed.

Lemma g_list_remove_perm (l : list nat) (x : nat) : x ∈ l -> x :: g_list_remove l x ≡ₚ l.
Proof.
  induction l as [|y l IH]; [by intros ?%elem_of_nil|].
  intros Hin. cbn [g_list_remove]. destruct (Nat.eqb_spec y x) as [->|Hne]; [done|].
  apply elem_of_cons in Hin as [->|Hin]; [done|].
  rewrite Permutation_swap. by rewrite IH.
Qed.

Lemma u64_succ (n : Z) : u64 (u64 n + 1) = u64 (n + 1).
Proof. unfold u64. by rewrite Zplus_mod_idemp_l. Qed.

Lemma u64_range (n : Z) : 0 <= u64 n < 2 ^ 64.
Proof. unfold u64. apply Z.mod_pos_bound. lia. Qed.

Lemma table_ok_new : table_ok [] g_inet_flow_table_new.
Proof.
  split; simpl; try done; constructor.
Qed.

Lemma table_ok_hit heap t n f stamp h :
  table_ok heap t -> 0 <= h < 2 ^ 64 -> n ∈ table t -> heap !! node_key n = Some f ->
  table_ok (<[node_key n := set_timestamp f stamp]> heap)
           (Table (table t) (node_key n :: g_list_remove (list_ t) (node_key n)) h (misses t)).
Proof.
  intros [Hnodes Hnodup Huniq Hlist Hhits Hmiss] Hrange Hin Hf.
  assert (forall i g', <[node_key n := set_timestamp f stamp]> heap !! i = Some g' ->
            exists g, heap !! i = Some g /\ tuple g = tuple g') as Hback.
  { intros i g' Hg'. destruct (decide (i = node_key n)) as [->|Hne].
    - rewrite list_lookup_insert_eq in Hg' by (by eapply lookup_lt_Some).
      injection Hg' as <-. by exists f.
    - rewrite list_lookup_insert_ne in Hg' by done. by exists g'. }
  split; cbn [table list_ misses hits].
  - eapply Forall_impl; [exact Hnodes|]. intros m [? ?]. by rewrite length_insert.
  - done.
  - intros i j a b fa fb Hi Hj Hij Ha Hb Hab.
    destruct (Hback _ _ Ha) as (ga & Hga & <-). destruct (Hback _ _ Hb) as (gb & Hgb & <-).
    exact (Huniq i j a b ga gb Hi Hj Hij Hga Hgb Hab).
  - rewrite g_list_remove_perm; [done|]. rewrite Hlist. by apply list_elem_of_fmap_2.
  - done.
  - done.
Qed.

Lemma table_ok_miss heap t g hv :
  table_ok heap t ->
  Forall (fun n => node_matches heap hv g n = false) (table t) ->
  table_ok (heap ++ [g])
           (Table (Node hv (length heap) (length heap) :: table t)
                  (length heap :: list_ t) (hits t) (u64 (misses t + 1))).
Proof.
  intros [Hnodes Hnodup Huniq Hlist Hhits Hmiss] Hnone.
  assert (forall m, m ∈ table t -> (node_key m < length heap)%nat) as Hlt.
  { intros m Hm. rewrite Forall_forall in Hnodes. by apply Hnodes. }
  assert (forall i m f, table t !! i = Some m -> (heap ++ [g]) !! node_key m = Some f ->
            heap !! node_key m = Some f) as Hback.
  { intros i m f Hi Hf. rewrite lookup_app_l in Hf; [done|].
    apply Hlt. by eapply list_elem_of_lookup_2. }
  assert (forall i m f, table t !! i = Some m -> heap !! node_key m = Some f ->
            node_hash m = hv -> tuple f <> tuple g) as Hfresh.
  { intros i m f Hi Hf Hhash Ht. rewrite Forall_forall in Hnone.
    specialize (Hnone m (list_elem_of_lookup_2 _ _ _ Hi)).
    unfold node_matches in Hnone. rewrite Hf, Hhash, Z.eqb_refl in Hnone. simpl in Hnone.
    apply flow_compare_true in Ht. congruence. }
  split; cbn [table list_ misses hits node_key node_value node_hash].
  - constructor.
    + cbn. rewrite length_app. simpl. split; [lia|done].
    + eapply Forall_impl; [exact Hnodes|]. intros m [? ?]. rewrite length_app. simpl. split; [lia|done].
  - cbn. constructor; [|done]. intros Hin. apply list_elem_of_fmap in Hin as (m & Hm1 & Hm2).
    apply Hlt in Hm2. lia.
  - intros i j a b fa fb Hi Hj Hij Ha Hb Hab.
    destruct i as [|i], j as [|j]; [done| | |].
    + injection Hi as <-. cbn in *. rewrite lookup_app_last in Ha. injection Ha as <-.
      intros Heq. eapply (Hfresh j b fb); eauto.
    + injection Hj as <-. cbn in *. rewrite lookup_app_last in Hb. injection Hb as <-.
      eapply (Hfresh i a fa); eauto.
    + cbn in Hi, Hj. eapply (Huniq i j); eauto.
  - cbn. by rewrite Hlist.
  - done.
  - cbn [length]. rewrite Hmiss, u64_succ. f_equal. lia.
Qed.

Lemma flow_parse_flag frame len h0 :
  flow_parse flow_zero frame len h0 = Undefined \/
  (exists f, flow_parse flow_zero frame len h0 = Done (false, f)) \/
  (exists f, flow_parse flow_zero frame len h0 = Done (true, f)).
Proof.
  destruct (flow_parse flow_zero frame len h0) as [[[|] f]|]; eauto.
Qed.

Lemma get_full_fail now heap t frame len h0 ts f :
  flow_parse flow_zero frame len h0 = Done (false, f) ->
  g_inet_flow_get_full bo now heap t frame len h0 ts = Done (None, heap, t).
Proof. intros H. unfold g_inet_flow_get_full. by rewrite H. Qed.

Lemma get_full_undefined now heap t frame len h0 ts :
  flow_parse flow_zero frame len h0 = Undefined ->
  g_inet_flow_get_full bo now heap t frame len h0 ts = Undefined.
Proof. intros H. unfold g_inet_flow_get_full. by rewrite H. Qed.

Lemma get_full_ok now heap t frame len h0 ts r heap' t' :
  table_ok heap t ->
  g_inet_flow_get_full bo now heap t frame len h0 ts = Done (r, heap', t') ->
  table_ok heap' t'.
Proof.
  intros Hok Hget.
  destruct (flow_parse_flag frame len h0) as [Hp|[[f Hp]|[packet Hp]]].
  - by rewrite get_full_undefined in Hget.
  - rewrite (get_full_fail _ _ _ _ _ _ _ f) in Hget by done. by injection Hget as <- <- <-.
  - destruct (get_full_step now heap t frame len h0 ts packet Hok Hp)
      as [(n & f & Hin & Hm & Hf & Heq)|[Hnone Heq]];
      rewrite Heq in Hget; injection Hget as <- <- <-.
    + apply table_ok_hit; [done|apply u64_range|done|done].
    + apply table_ok_miss; [done|].
      eapply Forall_impl; [exact Hnone|]. intros n Hn. rewrite <- Hn.
      unfold node_matches. f_equal. destruct (heap !! node_key n); [|done].
      apply flow_compare_tuple; [done|]. exact (new_flow_tuple packet).
Qed.

(** A lookup is answered by at most one entry. *)
Lemma matches_unique heap t hv key n n' :
  table_ok heap t -> n ∈ table t -> n' ∈ table t ->
  node_matches heap hv key n = true -> node_matches heap hv key n' = true -> n = n'.
Proof.
  intros Hok [i Hi]%list_elem_of_lookup_1 [j Hj]%list_elem_of_lookup_1 Hn Hn'.
  destruct (decide (i = j)) as [->|Hij]; [congruence|]. exfalso.
  unfold node_matches in Hn, Hn'.
  apply andb_true_iff in Hn as [Hh Hc]. apply andb_true_iff in Hn' as [Hh' Hc'].
  destruct (heap !! node_key n) as [f|] eqn:Hf; [|done].
  destruct (heap !! node_key n') as [f'|] eqn:Hf'; [|done].
  apply flow_compare_true in Hc, Hc'. apply Z.eqb_eq in Hh, Hh'.
  apply (ok_unique _ _ Hok i j n n' f f'); congruence.
Qed.

Lemma get_full_hit now heap t frame len h0 ts packet n :
  table_ok heap t ->
  flow_parse flow_zero frame len h0 = Done (true, packet) ->
  n ∈ table t ->
  node_matches heap (real_hash (flow_hash bo packet).1) packet n = true ->
  exists f, heap !! node_key n = Some f /\ tuple f = tuple packet /\
    g_inet_flow_get_full bo now heap t frame len h0 ts
    = Done (Some (node_key n),
            <[node_key n := set_timestamp f (if ts =? 0 then now else ts)]> heap,
            Table (table t) (node_key n :: g_list_remove (list_ t) (node_key n))
                  (u64 (hits t + 1)) (misses t)).
Proof.
  intros Hok Hp Hin Hm.
  destruct (get_full_step now heap t frame len h0 ts packet Hok Hp)
    as [(n' & f & Hin' & Hm' & Hf & Heq)|[Hnone Heq]].
  - assert (n' = n) as -> by (by eapply matches_unique).
    exists f. split; [done|]. split; [|done].
    unfold node_matches in Hm. rewrite Hf in Hm.
    apply andb_true_iff in Hm as [_ Hc]. by apply flow_compare_true.
  - rewrite Forall_forall in Hnone. specialize (Hnone n Hin). congruence.
Qed.

Lemma get_full_miss now heap t frame len h0 ts packet :
  table_ok heap t ->
  flow_parse flow_zero frame len h0 = Done (true, packet) ->
  Forall (fun n => node_matches heap (real_hash (flow_hash bo packet).1) packet n = false)
         (table t) ->
  g_inet_flow_get_full bo now heap t frame len h0 ts
  = Done (Some (length heap),
          heap ++ [set_timestamp (new_flow bo packet) (if ts =? 0 then now else ts)],
          Table (Node (real_hash (flow_hash bo packet).1) (length heap) (length heap) :: table t)
                (length heap :: list_ t) (hits t) (u64 (misses t + 1))).
Proof.
  intros Hok Hp Hnone.
  destruct (get_full_step now heap t frame len h0 ts packet Hok Hp)
    as [(n' & f & Hin' & Hm' & Hf & Heq)|[_ Heq]]; [|done].
  rewrite Forall_forall in Hnone. specialize (Hnone n' Hin'). congruence.
Qed.

(** What a call that returns does to the records that were there: it
    leaves key, hash and family alone. *)
Lemma get_full_records now heap t frame len h0 ts r heap' t' :
  table_ok heap t ->
  g_inet_flow_get_full bo now heap t frame len h0 ts = Done (r, heap', t') ->
  forall p f, heap !! p = Some f ->
    exists f', heap' !! p = Some f' /\ tuple f' = tuple f /\ hash f' = hash f /\
               family f' = family f.
Proof.
  intros Hok Hget p f Hf.
  destruct (flow_parse_flag frame len h0) as [Hp|[[f0 Hp]|[packet Hp]]].
  - by rewrite get_full_undefined in Hget.
  - rewrite (get_full_fail _ _ _ _ _ _ _ f0) in Hget by done.
    injection Hget as <- <- <-. by exists f.
  - destruct (get_full_step now heap t frame len h0 ts packet Hok Hp)
      as [(n & g & Hin & Hm & Hg & Heq)|[Hnone Heq]];
      rewrite Heq in Hget; injection Hget as <- <- <-.
    + destruct (decide (p = node_key n)) as [->|Hne].
      * rewrite list_lookup_insert_eq by (by eapply lookup_lt_Some).
        assert (g = f) as -> by congruence. by eexists.
      * rewrite list_lookup_insert_ne by done. by exists f.
    + exists f. split; [|done]. by apply lookup_app_l_Some.
Qed.

(** The record a call returns carries the key of the frame. *)
Lemma get_full_result now heap t frame len h0 ts packet r heap' t' :
  table_ok heap t ->
  flow_parse flow_zero frame len h0 = Done (true, packet) ->
  g_inet_flow_get_full bo now heap t frame len h0 ts = Done (r, heap', t') ->
  exists p f, r = Some p /\ heap' !! p = Some f /\ tuple f = tuple packet /\
    timestamp f = (if ts =? 0 then now else ts).
Proof.
  intros Hok Hp Hget.
  destruct (get_full_step now heap t frame len h0 ts packet Hok Hp)
    as [(n & g & Hin & Hm & Hg & Heq)|[Hnone Heq]];
    rewrite Heq in Hget; injection Hget as <- <- <-.
  - exists (node_key n), (set_timestamp g (if ts =? 0 then now else ts)).
    split; [done|]. split.
    + apply list_lookup_insert_eq. by eapply lookup_lt_Some.
    + split; [|done]. cbn [tuple set_timestamp].
      unfold node_matches in Hm. rewrite Hg in Hm.
      apply andb_true_iff in Hm as [_ Hc]. by apply flow_compare_true.
  - exists (length heap), (set_timestamp (new_flow bo packet) (if ts =? 0 then now else ts)).
    split; [done|]. split; [apply lookup_app_last|]. split; [|done].
    exact (new_flow_tuple packet).
Qed.

(** After a call that returned for a frame with key [packet], the table
    has the entry that answers a lookup of [packet]: the one of the
    record returned. *)
Lemma get_full_stored now heap t frame len h0 ts packet r heap' t' :
  table_ok heap t ->
  flow_parse flow_zero frame len h0 = Done (true, packet) ->
  g_inet_flow_get_full bo now heap t frame len h0 ts = Done (r, heap', t') ->
  exists n, n ∈ table t' /\ r = Some (node_key n) /\
    node_matches heap' (real_hash (flow_hash bo packet).1) packet n = true.
Proof.
  intros Hok Hp Hget.
  destruct (get_full_step now heap t frame len h0 ts packet Hok Hp)
    as [(n & g & Hin & Hm & Hg & Heq)|[Hnone Heq]];
    rewrite Heq in Hget; injection Hget as <- <- <-.
  - exists n. split; [done|]. split; [done|]. rewrite <- Hm.
    pose proof (ok_nodes _ _ Hok) as Hnodes. rewrite Forall_forall in Hnodes.
    apply node_matches_tuple; [|by apply Hnodes|done].
    intros f Hf. assert (f = g) as -> by congruence.
    eexists. split; [apply list_lookup_insert_eq; by eapply lookup_lt_Some|done].
  - eexists. split; [apply list_elem_of_here|]. split; [done|].
    unfold node_matches. cbn [node_hash node_key].
    rewrite lookup_app_last, Z.eqb_refl. apply flow_compare_true.
    exact (new_flow_tuple packet).
Qed.

(** Entries stay, and go on answering the lookups they answered. *)
Lemma get_full_keeps now heap t frame len h0 ts r heap' t' hv key n :
  table_ok heap t ->
  g_inet_flow_get_full bo now heap t frame len h0 ts = Done (r, heap', t') ->
  n ∈ table t -> node_matches heap hv key n = true ->
  n ∈ table t' /\ node_matches heap' hv key n = true.
Proof.
  intros Hok Hget Hin Hm.
  pose proof (get_full_records _ _ _ _ _ _ _ _ _ _ Hok Hget) as Hrec.
  split.
  - destruct (flow_parse_flag frame len h0) as [Hp|[[f0 Hp]|[packet Hp]]].
    + by rewrite get_full_undefined in Hget.
    + rewrite (get_full_fail _ _ _ _ _ _ _ f0) in Hget by done. by injection Hget as <- <- <-.
    + destruct (get_full_step now heap t frame len h0 ts packet Hok Hp)
        as [(m & g & Hin' & Hm' & Hg & Heq)|[Hnone Heq]];
        rewrite Heq in Hget; injection Hget as <- <- <-; [done|].
      by apply list_elem_of_further.
  - rewrite <- Hm. pose proof (ok_nodes _ _ Hok) as Hnodes. rewrite Forall_forall in Hnodes.
    apply node_matches_tuple; [|by apply Hnodes|done].
    intros f Hf. destruct (Hrec _ f Hf) as (f' & Hf' & Ht & _). by exists f'.
Qed.

(** The three ways a call that returns can go. *)
Lemma get_full_cases now heap t frame len h0 ts r heap' t' :
  table_ok heap t ->
  g_inet_flow_get_full bo now heap t frame len h0 ts = Done (r, heap', t') ->
  (r = None /\ heap' = heap /\ t' = t /\
     exists f, flow_parse flow_zero frame len h0 = Done (false, f))
  \/ (exists p, r = Some p /\ (p < length heap)%nat /\ p ∈ list_ t /\
        length heap' = length heap /\ table t' = table t /\
        list_ t' = p :: g_list_remove (list_ t) p /\
        hits t' = u64 (hits t + 1) /\ misses t' = misses t)
  \/ (exists hv, r = Some (length heap) /\ length heap' = S (length heap) /\
        table t' = Node hv (length heap) (length heap) :: table t /\
        list_ t' = length heap :: list_ t /\
        hits t' = hits t /\ misses t' = u64 (misses t + 1)).
Proof.
  intros Hok Hget.
  destruct (flow_parse_flag frame len h0) as [Hp|[[f0 Hp]|[packet Hp]]].
  - by rewrite get_full_undefined in Hget.
  - rewrite (get_full_fail _ _ _ _ _ _ _ f0) in Hget by done.
    injection Hget as <- <- <-. left. eauto.
  - right.
    destruct (get_full_step now heap t frame len h0 ts packet Hok Hp)
      as [(n & g & Hin & Hm & Hg & Heq)|[Hnone Heq]];
      rewrite Heq in Hget; injection Hget as <- <- <-.
    + left. exists (node_key n). split; [done|].
      split; [by eapply lookup_lt_Some|].
      split; [rewrite (ok_list _ _ Hok); by apply list_elem_of_fmap_2|].
      split; [by rewrite length_insert|]. done.
    + right. eexists. split; [done|]. split; [|done].
      rewrite length_app. simpl. lia.
Qed.

Lemma node_matches_true heap hv key n :
  node_matches heap hv key n = true <->
  node_hash n = hv /\ exists f, heap !! node_key n = Some f /\ tuple f = tuple key.
Proof.
  unfold node_matches. rewrite andb_true_iff, Z.eqb_eq. split.
  - intros [Hh Hc]. split; [done|]. destruct (heap !! node_key n) as [f|]; [|done].
    exists f. split; [done|]. by apply flow_compare_true.
  - intros [Hh (f & Hf & Ht)]. split; [done|]. rewrite Hf. by apply flow_compare_true.
Qed.

(** ** Runs *)

Lemma do_call_eq (s : list GInetFlow * GInetFlowTable) (c : call) r heap' t' :
  g_inet_flow_get_full bo (call_now c) s.1 s.2 (call_frame c) (call_length c)
    (call_hash c) (call_timestamp c) = Done (r, heap', t') ->
  do_call bo s c = Done (r, (heap', t')).
Proof. intros H. unfold do_call. by rewrite H. Qed.

Lemma do_call_inv (s s' : list GInetFlow * GInetFlowTable) (c : call) r :
  do_call bo s c = Done (r, s') ->
  g_inet_flow_get_full bo (call_now c) s.1 s.2 (call_frame c) (call_length c)
    (call_hash c) (call_timestamp c) = Done (r, s'.1, s'.2).
Proof.
  unfold do_call.
  destruct (g_inet_flow_get_full _ _ _ _ _ _ _ _) as [[[r0 heap0] t0]|]; [|done].
  by intros [= -> <-].
Qed.

Lemma run_cons_eq s c cs r s1 rs s2 :
  do_call bo s c = Done (r, s1) -> run bo s1 cs = Done (rs, s2) ->
  run bo s (c :: cs) = Done (r :: rs, s2).
Proof. intros H1 H2. cbn [run]. rewrite H1. cbn. by rewrite H2. Qed.

Lemma run_cons_inv s c cs rs' s2 :
  run bo s (c :: cs) = Done (rs', s2) ->
  exists r s1 rs, rs' = r :: rs /\ do_call bo s c = Done (r, s1) /\
    run bo s1 cs = Done (rs, s2).
Proof.
  cbn [run]. destruct (do_call bo s c) as [[r s1]|] eqn:Hc; [|done]. cbn.
  destruct (run bo s1 cs) as [[rs s2']|] eqn:Hrun; [|done]. cbn.
  intros [= <- <-]. eauto 10.
Qed.

Lemma run_ok cs : forall s rs s',
  table_ok s.1 s.2 -> run bo s cs = Done (rs, s') -> table_ok s'.1 s'.2.
Proof.
  induction cs as [|c cs IH]; intros s rs s' Hok Hrun.
  - by injection Hrun as <- <-.
  - apply run_cons_inv in Hrun as (r & s1 & rs1 & -> & Hc & Hrun).
    apply do_call_inv in Hc. destruct s as [heap t], s1 as [heap1 t1]. cbn [fst snd] in *.
    apply (IH (heap1, t1) rs1 s'); [|done]. by eapply get_full_ok.
Qed.

Lemma run_keeps cs : forall s rs s' hv key n,
  table_ok s.1 s.2 -> run bo s cs = Done (rs, s') ->
  n ∈ table s.2 -> node_matches s.1 hv key n = true ->
  n ∈ table s'.2 /\ node_matches s'.1 hv key n = true.
Proof.
  induction cs as [|c cs IH]; intros s rs s' hv key n Hok Hrun Hin Hm.
  - by injection Hrun as <- <-.
  - apply run_cons_inv in Hrun as (r & s1 & rs1 & -> & Hc & Hrun).
    apply do_call_inv in Hc. destruct s as [heap t], s1 as [heap1 t1]. cbn [fst snd] in *.
    pose proof (get_full_keeps _ _ _ _ _ _ _ _ _ _ hv key n Hok Hc Hin Hm) as [Hin1 Hm1].
    apply (IH (heap1, t1) rs1 s' hv key n); [|done|done|done]. by eapply get_full_ok.
Qed.

(** A run never makes more entries than it has calls. *)
Lemma run_size cs : forall s rs s',
  table_ok s.1 s.2 -> run bo s cs = Done (rs, s') ->
  (length (table s'.2) <= length (table s.2) + length cs)%nat.
Proof.
  induction cs as [|c cs IH]; intros s rs s' Hok Hrun.
  - injection Hrun as <- <-. lia.
  - apply run_cons_inv in Hrun as (r & s1 & rs1 & -> & Hc & Hrun).
    apply do_call_inv in Hc. destruct s as [heap t], s1 as [heap1 t1]. cbn [fst snd] in *.
    pose proof (get_full_ok _ _ _ _ _ _ _ _ _ _ Hok Hc) as Hok1.
    specialize (IH (heap1, t1) rs1 s' Hok1 Hrun). cbn [length fst snd] in *.
    destruct (get_full_cases _ _ _ _ _ _ _ _ _ _ Hok Hc)
      as [(_ & _ & Ht & _)|[(p & _ & _ & _ & _ & Ht & _)|(hv & _ & _ & Ht & _)]];
      [subst t1; lia|rewrite Ht in IH; lia|].
    rewrite Ht in IH. cbn [length] in IH. lia.
Qed.

Lemma call_key_Some (c : call) (k : flow_tuple) :
  call_key c = Some k <->
  exists packet,
    flow_parse flow_zero (call_frame c) (call_length c) (call_hash c) = Done (true, packet) /\
    tuple packet = k.
Proof.
  unfold call_key. split.
  - destruct (flow_parse _ _ _ _) as [[[|] packet]|]; try done.
    intros [= <-]. by exists packet.
  - intros (packet & -> & <-). done.
Qed.

(** Calls for keys the table does not hold, each key once: every call
    is a miss, the records get the next addresses in turn, and go to
    the head of the recency list one after the other. *)
Lemma run_misses cs : forall heap t,
  table_ok heap t ->
  Forall (fun c => is_Some (call_key c)) cs ->
  NoDup (call_key <$> cs) ->
  (forall c n f, c ∈ cs -> n ∈ table t -> heap !! node_key n = Some f ->
     call_key c <> Some (tuple f)) ->
  exists heap' t',
    run bo (heap, t) cs = Done (Some <$> seq (length heap) (length cs), (heap', t')) /\
    table_ok heap' t' /\
    list_ t' = rev (seq (length heap) (length cs)) ++ list_ t /\
    hits t' = hits t /\
    misses t' = u64 (misses t + Z.of_nat (length cs)) /\
    (forall i c, cs !! i = Some c -> stored bo heap' t' c (length heap + i)).
Proof.
  induction cs as [|c cs IH]; intros heap t Hok Hsome Hnodup Habsent.
  - exists heap, t. cbn. split; [done|]. split; [done|]. split; [done|]. split; [done|].
    split; [|by intros i c ?].
    rewrite (ok_misses _ _ Hok). unfold u64. by rewrite Z.add_0_r, Z.mod_mod.
  - apply Forall_cons in Hsome as [[k Hk] Hsome].
    rewrite fmap_cons in Hnodup. apply NoDup_cons in Hnodup as [Hfresh Hnodup].
    pose proof Hk as Hk'. apply call_key_Some in Hk' as (packet & Hp & Htup).
    assert (Forall (fun n => node_matches heap (real_hash (flow_hash bo packet).1) packet n = false)
              (table t)) as Hnone.
    { apply Forall_forall. intros n Hin.
      destruct (node_matches heap (real_hash (flow_hash bo packet).1) packet n) eqn:Hm; [|done].
      apply node_matches_true in Hm as [_ (f & Hf & Ht)]. exfalso.
      apply (Habsent c n f); [apply list_elem_of_here|done|done|]. by rewrite Hk, Ht, Htup. }
    pose proof (get_full_miss (call_now c) heap t _ _ _ (call_timestamp c) packet Hok Hp Hnone)
      as Hget.
    set (heap1 := heap ++ _) in Hget. set (t1 := Table _ _ _ _) in Hget.
    pose proof (get_full_ok _ _ _ _ _ _ _ _ _ _ Hok Hget) as Hok1.
    destruct (IH heap1 t1 Hok1 Hsome Hnodup) as (heap' & t' & Hrun & Hok' & Hlist & Hhits & Hmiss & Hst).
    { intros c' n f Hc' Hin Hf Hkey. subst t1 heap1. cbn [table] in Hin.
      apply elem_of_cons in Hin as [->|Hin].
      - cbn [node_key] in Hf. rewrite lookup_app_last in Hf. injection Hf as <-.
        apply Hfresh. rewrite Hk, <- Htup. cbn [tuple set_timestamp].
        rewrite <- (new_flow_tuple packet). change (Some (tuple (new_flow bo packet))) with
          (Some (tuple (set_timestamp (new_flow bo packet)
                   (if call_timestamp c =? 0 then call_now c else call_timestamp c)))).
        rewrite <- Hkey. by apply list_elem_of_fmap_2.
      - apply (Habsent c' n f); [by apply list_elem_of_further|done| |done].
        rewrite lookup_app_l in Hf; [done|].
        pose proof (ok_nodes _ _ Hok) as Hnodes. rewrite Forall_forall in Hnodes.
        by apply Hnodes. }
    assert (length heap1 = S (length heap)) as Hlen1
      by (subst heap1; rewrite length_app; simpl; lia).
    rewrite Hlen1 in *.
    exists heap', t'. split.
    { cbn [length seq fmap list_fmap]. eapply run_cons_eq; [|exact Hrun].
      by apply do_call_eq. }
    split; [done|]. split.
    { rewrite Hlist. subst t1. cbn [list_ length seq rev]. by rewrite <- app_assoc. }
    split; [by rewrite Hhits|]. split.
    { rewrite Hmiss. subst t1. cbn [misses length]. unfold u64.
      rewrite Zplus_mod_idemp_l. f_equal. lia. }
    intros [|i] c' Hc'.
    + injection Hc' as <-. rewrite Nat.add_0_r.
      destruct (get_full_stored _ _ _ _ _ _ _ _ _ _ _ Hok Hp Hget) as (n & Hin & [= Hkey] & Hm).
      destruct (run_keeps cs (heap1, t1) _ (heap', t') _ packet n Hok1 Hrun Hin Hm) as [Hin' Hm'].
      exists packet, n. by rewrite Hkey.
    + cbn in Hc'. replace (length heap + S i)%nat with (S (length heap) + i)%nat by lia.
      by apply Hst.
Qed.

(** Calls for frames the table answers: every call is a hit and the
    entries stay as they are. *)
Lemma run_hits cs : forall heap t,
  table_ok heap t ->
  (forall c, c ∈ cs -> exists p, stored bo heap t c p) ->
  exists rs heap' t',
    run bo (heap, t) cs = Done (rs, (heap', t')) /\
    table_ok heap' t' /\
    table t' = table t /\
    hits t' = u64 (hits t + Z.of_nat (length cs)) /\
    misses t' = misses t.
Proof.
  induction cs as [|c cs IH]; intros heap t Hok Hst.
  - exists [], heap, t. cbn. split; [done|]. split; [done|]. split; [done|]. split; [|done].
    unfold u64. rewrite Z.add_0_r, Z.mod_small; [done|]. apply (ok_hits _ _ Hok).
  - destruct (Hst c (list_elem_of_here _ _)) as (p & packet & n & Hp & Hin & Hkey & Hm).
    destruct (get_full_hit (call_now c) heap t _ _ _ (call_timestamp c) packet n Hok Hp Hin Hm)
      as (f & Hf & Ht & Hget).
    set (heap1 := <[_ := _]> heap) in Hget. set (t1 := Table _ _ _ _) in Hget.
    pose proof (get_full_ok _ _ _ _ _ _ _ _ _ _ Hok Hget) as Hok1.
    destruct (IH heap1 t1 Hok1) as (rs & heap' & t' & Hrun & Hok' & Htab & Hhits & Hmiss).
    { intros c' Hc'.
      destruct (Hst c' (list_elem_of_further _ _ _ Hc')) as (p' & packet' & n' & Hp' & Hin' & Hkey' & Hm').
      destruct (get_full_keeps _ _ _ _ _ _ _ _ _ _ _ packet' n' Hok Hget Hin' Hm') as [Hin1 Hm1].
      exists p', packet', n'. done. }
    exists (Some (node_key n) :: rs), heap', t'. split.
    { eapply run_cons_eq; [|exact Hrun]. by apply do_call_eq. }
    split; [done|]. split; [by rewrite Htab|]. split; [|by rewrite Hmiss].
    rewrite Hhits. subst t1. cbn [hits length]. unfold u64.
    rewrite Zplus_mod_idemp_l. f_equal. lia.
Qed.

Lemma run_app cs1 : forall cs2 s rs1 s1 rs2 s2,
  run bo s cs1 = Done (rs1, s1) -> run bo s1 cs2 = Done (rs2, s2) ->
  run bo s (cs1 ++ cs2) = Done (rs1 ++ rs2, s2).
Proof.
  induction cs1 as [|c cs1 IH]; intros cs2 s rs1 s1 rs2 s2 H1 H2.
  - by injection H1 as <- <-.
  - apply run_cons_inv in H1 as (r & s' & rs & -> & Hc & Hrun).
    cbn [app]. eapply run_cons_eq; [done|]. by eapply IH.
Qed.

(** A frame with the key and the hash of a stored one is answered by
    the same record. *)
Lemma stored_same_key heap t c1 c2 p :
  call_hash c1 = call_hash c2 -> call_key c1 = call_key c2 -> is_Some (call_key c2) ->
  stored bo heap t c1 p -> stored bo heap t c2 p.
Proof.
  intros Hh Hk [k Hk2] (packet1 & n & Hp1 & Hin & Hkey & Hm).
  pose proof Hk2 as (packet2 & Hp2 & Ht2)%call_key_Some.
  assert (tuple packet1 = tuple packet2) as Ht.
  { assert (call_key c1 = Some (tuple packet1)) as Hk1 by (apply call_key_Some; eauto).
    congruence. }
  destruct (flow_parse_hash _ _ _ _ Hp1) as (Hh1 & _).
  destruct (flow_parse_hash _ _ _ _ Hp2) as (Hh2 & _).
  exists packet2, n. split; [done|]. split; [done|]. split; [done|].
  rewrite <- (flow_hash_ext packet1 packet2) by congruence.
  apply node_matches_true in Hm as [Hhash (f & Hf & Htf)].
  apply node_matches_true. split; [done|]. exists f. split; [done|]. congruence.
Qed.

End TableProofs.

#[local] Transparent flow_hash.

(** * The claims *)

(** C1: a TCP/IPv4 frame and the frame of the opposite direction (both
    addresses and both ports changed over, every other byte the same)
    parse to the same key, byte for byte, and looking the two up one
    after the other yields the same record: the second call is a hit on
    the record the first call returned. *)
Theorem direction_invariance (bo : byte_order) (now now' : Z)
    (heap : list GInetFlow) (t : GInetFlowTable) (frame : list byte)
    (len h ts ts' : Z) (packet : GInetFlow) :
  table_ok heap t ->
  flow_parse flow_zero frame len h = Done (true, packet) ->
  flow_parse flow_zero (reverse_direction frame) len h = Done (true, packet) /\
  exists r heap1 t1 heap2,
    g_inet_flow_get_full bo now heap t frame len h ts = Done (Some r, heap1, t1) /\
    g_inet_flow_get_full bo now' heap1 t1 (reverse_direction frame) len h ts'
    = Done (Some r, heap2,
            Table (table t1) (r :: g_list_remove (list_ t1) r)
                  (u64 (hits t1 + 1)) (misses t1)).
Proof.
  intros Hok Hp. pose proof (flow_parse_reverse _ _ _ _ _ Hp) as Hp'.
  split; [done|].
  assert (exists r heap1 t1,
    g_inet_flow_get_full bo now heap t frame len h ts = Done (r, heap1, t1))
    as (r & heap1 & t1 & Hget).
  { destruct (get_full_step bo now heap t frame len h ts packet Hok Hp)
      as [(n & g & _ & _ & _ & Heq)|[_ Heq]]; rewrite Heq; eauto. }
  pose proof (get_full_ok bo now heap t frame len h ts r heap1 t1 Hok Hget) as Hok1.
  destruct (get_full_stored bo now heap t frame len h ts packet r heap1 t1 Hok Hp Hget)
    as (n & Hin & -> & Hm).
  destruct (get_full_hit bo now' heap1 t1 _ len h ts' packet n Hok1 Hp' Hin Hm)
    as (f & Hf & Ht & Hget').
  eauto 10.
Qed.

Lemma direction_invariance_witness :
  table_ok [] g_inet_flow_table_new /\
  flow_parse flow_zero frame_A 54 0 = Done (true, packet_A) /\
  flow_parse flow_zero (reverse_direction frame_A) 54 0 = Done (true, packet_A) /\
  exists r heap1 t1 heap2,
    g_inet_flow_get_full G_LITTLE_ENDIAN 1 [] g_inet_flow_table_new frame_A 54 0 0
    = Done (Some r, heap1, t1) /\
    g_inet_flow_get_full G_LITTLE_ENDIAN 2 heap1 t1 (reverse_direction frame_A) 54 0 0
    = Done (Some r, heap2,
            Table (table t1) (r :: g_list_remove (list_ t1) r)
                  (u64 (hits t1 + 1)) (misses t1)).
Proof.
  split; [exact table_ok_new|]. split; [reflexivity|].
  apply (direction_invariance G_LITTLE_ENDIAN 1 2 [] g_inet_flow_table_new frame_A 54 0 0 0
           packet_A table_ok_new).
  reflexivity.
Defined.

(** The parser looks at the first 38 bytes only. *)
Lemma flow_parse_prefix (frame : list byte) (len h : Z) :
  flow_parse flow_zero (take 38 frame) len h = flow_parse flow_zero frame len h.
Proof.
  destruct (decide (38 <= length frame)%nat) as [Hlen|Hlen].
  - do 38 (destruct frame as [|? frame]; [cbn [length] in Hlen; lia|]).
    unfold flow_parse, flow_parse_ipv4, flow_parse_tcp. cbn [take]. parse_loads. reflexivity.
  - rewrite take_ge by lia. reflexivity.
Qed.

(** C3, as the code has it: an Ethernet/IPv4/TCP frame parses exactly
    when the bytes after the 20-byte IPv4 header make up a whole
    [tcp_hdr_t], 20 bytes, so when the frame has at least 14 + 20 + 20 =
    54 bytes; with fewer transport bytes it is rejected.  Of these
    bytes the parser reads the two ports only: the answer depends on
    nothing past byte 38 of the frame. *)
Theorem tcp_header_required (frame : list byte) (len h : Z) :
  34 <= len <= Z.of_nat (length frame) -> len < 2 ^ 32 ->
  tcp_ipv4_frame frame ->
  (parses frame len h <-> sizeof_tcp_hdr_t <= len - 34) /\
  (rejects frame len h <-> len - 34 < sizeof_tcp_hdr_t) /\
  (forall frame', take 38 frame' = take 38 frame ->
     flow_parse flow_zero frame' len h = flow_parse flow_zero frame len h).
Proof.
  intros Hlen Hmax [Heth Hproto].
  destruct (flow_parse_defined frame len h) as (ok & f & Hp & Hok); [lia|done|].
  unfold parses, rejects, sizeof_tcp_hdr_t.
  split; [|split].
  - rewrite Hp. split.
    + intros [packet [= -> _]]. destruct Hok as [Hok _]. destruct (Hok eq_refl) as (_ & ? & _). lia.
    + intros Hge. destruct Hok as [_ Hok]. rewrite Hok; [by exists f|].
      split; [done|]. split; [lia|done].
  - rewrite Hp. split.
    + intros [packet [= -> _]]. destruct (Z.lt_ge_cases (len - 34) 20) as [|Hge]; [done|].
      destruct Hok as [_ Hok]. discriminate Hok. split; [done|]. split; [lia|done].
    + intros Hlt. destruct ok; [|by exists f].
      destruct Hok as [Hok _]. destruct (Hok eq_refl) as (_ & ? & _). lia.
  - intros frame' Heq.
    by rewrite <- (flow_parse_prefix frame'), <- (flow_parse_prefix frame), Heq.
Qed.

Lemma tcp_header_required_witness :
  (34 <= 54 <= Z.of_nat (length frame_A) /\ 54 < 2 ^ 32 /\ tcp_ipv4_frame frame_A) /\
  (parses frame_A 54 0 <-> sizeof_tcp_hdr_t <= 54 - 34) /\
  (rejects frame_A 54 0 <-> 54 - 34 < sizeof_tcp_hdr_t) /\
  (forall frame', take 38 frame' = take 38 frame_A ->
     flow_parse flow_zero frame' 54 0 = flow_parse flow_zero frame_A 54 0).
Proof.
  assert (tcp_ipv4_frame frame_A) as Htcp.
  { split; [reflexivity|]. exists "006"%byte. split; reflexivity. }
  split.
  - split; [vm_compute; split; discriminate|]. split; [reflexivity|exact Htcp].
  - apply (tcp_header_required frame_A 54 0); [vm_compute; split; discriminate|reflexivity|exact Htcp].
Defined.

(** C3, as the claim has it, fails: the first 38 bytes of [frame_A] are
    an Ethernet/IPv4/TCP frame with both ports, four bytes after the
    IPv4 header, and [flow_parse] turns it down. *)
Lemma tcp_four_bytes_rejected :
  Z.of_nat (length (take 38 frame_A)) = 38 /\
  tcp_ipv4_frame (take 38 frame_A) /\
  ~ parses (take 38 frame_A) 38 0.
Proof.
  split; [reflexivity|]. split.
  - split; [reflexivity|]. exists "006"%byte. split; reflexivity.
  - intros [packet Hp]. vm_compute in Hp. discriminate Hp.
Qed.

(** C4: the code does not do what the claim asks for.  With a length of
    10, [flow_parse] reads the type field at bytes 12 and 13 all the
    same, hands [(guint32) (10 - 14)] to the next stage, which every
    later length test passes, and a record is made; where the object
    ends after 10 bytes the read is outside it. *)
Lemma short_length_not_rejected :
  flow_parse flow_zero frame_A 10 0 = Done (true, packet_A) /\
  u32 (10 - sizeof_ethernet_hdr_t) = 4294967292 /\
  (exists heap t,
     g_inet_flow_get G_LITTLE_ENDIAN 1 [] g_inet_flow_table_new frame_A 10
     = Done (Some 0%nat, heap, t) /\
     g_inet_flow_table_get_property t TABLE_SIZE = Some (GUInt64 1)) /\
  flow_parse flow_zero (take 10 frame_A) 10 0 = Undefined.
Proof.
  split. { reflexivity. }
  split. { reflexivity. }
  split; [|reflexivity].
  do 2 eexists. split.
  - vm_compute. reflexivity.
  - vm_compute. reflexivity.
Qed.

(** C5: the code does not do what the claim asks for.  The accessor of
    the upper address reads [lower_ip], as the accessor of the lower
    address does: for the record of [frame_A], between 10.0.0.1 and
    10.0.0.2, both answer 10.0.0.1, while [upper_ip] spells 10.0.0.2. *)
Lemma upper_address_accessor_reads_lower :
  (forall flow, g_inet_flow_get_property flow FLOW_UIP
                = g_inet_flow_get_property flow FLOW_LIP) /\
  exists heap t flow,
    g_inet_flow_get G_LITTLE_ENDIAN 1 [] g_inet_flow_table_new frame_A 54
    = Done (Some 0%nat, heap, t) /\
    heap !! 0%nat = Some flow /\
    g_inet_flow_get_property flow FLOW_LIP = Some (GString (Some "10.0.0.1"%string)) /\
    g_inet_flow_get_property flow FLOW_UIP = Some (GString (Some "10.0.0.1"%string)) /\
    g_inet_address_to_string
      (g_inet_address_new_from_bytes (ip_array_bytes (upper_ip (tuple flow))) (family flow))
    = Some "10.0.0.2"%string /\
    GINT32_FROM_BE (lower_ip (tuple flow)).1.1.1 < GINT32_FROM_BE (upper_ip (tuple flow)).1.1.1.
Proof.
  split; [reflexivity|].
  do 3 eexists. split; [vm_compute; reflexivity|].
  split; [reflexivity|]. repeat split; vm_compute; reflexivity.
Qed.

(** The frames [flow_parse] turns down, among those given with a length
    they have: another ethertype than IPv4, another protocol than TCP,
    fewer than 54 bytes. *)
Lemma rejected_frames (frame : list byte) (len h : Z) :
  14 <= len <= Z.of_nat (length frame) -> len < 2 ^ 32 ->
  load16_be frame 12 <> Done ETH_PROTOCOL_IP \/ len < 54 \/
    (exists b, frame !! 23%nat = Some b /\ byte_val b <> IP_PROTOCOL_TCP) ->
  rejects frame len h.
Proof.
  intros Hlen Hmax Hwhy.
  destruct (flow_parse_defined frame len h Hlen Hmax) as (ok & f & Hp & Hok).
  destruct ok; [|by exists f]. exfalso.
  destruct Hok as [Hok _]. destruct (Hok eq_refl) as (He & Hl & b & Hb & Hv).
  destruct Hwhy as [?|[?|(b' & Hb' & Hv')]]; [done|lia|]. congruence.
Qed.

(** C6: the code does not do what the claim asks for on a frame cut in
    the Ethernet header.  For a call with a length of at least 14 that
    the frame has, the claim holds: a frame of another ethertype than
    IPv4, a frame cut in the IPv4 header (fewer than 34 bytes), a frame
    cut in the TCP header (fewer than 54 bytes) and a frame of another
    protocol than TCP make the call return [NULL] and leave the store
    and the table as they were: entries, recency list, both counters,
    every record.  With a length below 14 [flow_parse] tests nothing:
    [frame_A] handed in with the length 13 is parsed as if it were
    whole.  On a new table a record is made and stored and [misses]
    goes up; on the table that holds the flow the record is hit, its
    time stamp changes and [hits] goes up.  Where the object ends after
    13 bytes the read of the type field is outside it. *)
Theorem truncated_link_header_changes_table :
  (forall bo now heap t frame len h ts,
     14 <= len <= Z.of_nat (length frame) -> len < 2 ^ 32 ->
     load16_be frame 12 <> Done ETH_PROTOCOL_IP \/
     len < sizeof_ethernet_hdr_t + sizeof_ip_hdr_t \/
     len < sizeof_ethernet_hdr_t + sizeof_ip_hdr_t + sizeof_tcp_hdr_t \/
     (exists b, frame !! 23%nat = Some b /\ byte_val b <> IP_PROTOCOL_TCP) ->
     g_inet_flow_get_full bo now heap t frame len h ts = Done (None, heap, t)) /\
  flow_parse flow_zero frame_A 13 0 = Done (true, packet_A) /\
  g_inet_flow_get_full G_LITTLE_ENDIAN 1 [] g_inet_flow_table_new frame_A 13 0 0
  = Done (Some 0%nat, [Flow 1 G_SOCKET_FAMILY_IPV4 4113 (tuple packet_A) 0],
          Table [Node 4113 0%nat 0%nat] [0%nat] 0 1) /\
  g_inet_flow_table_get_property (Table [Node 4113 0%nat 0%nat] [0%nat] 0 1) TABLE_SIZE
  = Some (GUInt64 1) /\
  g_inet_flow_table_get_property (Table [Node 4113 0%nat 0%nat] [0%nat] 0 1) TABLE_MISSES
  = Some (GUInt64 1) /\
  g_inet_flow_get_full G_LITTLE_ENDIAN 2 [Flow 1 G_SOCKET_FAMILY_IPV4 4113 (tuple packet_A) 0]
    (Table [Node 4113 0%nat 0%nat] [0%nat] 0 1) frame_A 13 0 0
  = Done (Some 0%nat, [Flow 2 G_SOCKET_FAMILY_IPV4 4113 (tuple packet_A) 0],
          Table [Node 4113 0%nat 0%nat] [0%nat] 1 1) /\
  flow_parse flow_zero (take 13 frame_A) 13 0 = Undefined.
Proof.
  split.
  { intros bo now heap t frame len h ts Hlen Hmax Hwhy.
    assert (rejects frame len h) as [f Hf].
    { apply rejected_frames; [done|done|].
      unfold sizeof_ethernet_hdr_t, sizeof_ip_hdr_t, sizeof_tcp_hdr_t in Hwhy.
      destruct Hwhy as [?|[?|[?|?]]]; [by left|right; left; lia|right; left; lia|by right; right]. }
    by eapply get_full_fail. }
  split. { reflexivity. }
  split. { vm_compute. reflexivity. }
  split. { reflexivity. }
  split. { reflexivity. }
  split. { vm_compute. reflexivity. }
  reflexivity.
Qed.

Lemma truncated_link_header_changes_table_witness :
  (14 <= 42 <= Z.of_nat (length frame_udp) /\ 42 < 2 ^ 32 /\
   (exists b, frame_udp !! 23%nat = Some b /\ byte_val b <> IP_PROTOCOL_TCP) /\
   g_inet_flow_get_full G_LITTLE_ENDIAN 1 [] g_inet_flow_table_new frame_udp 42 0 0
   = Done (None, [], g_inet_flow_table_new)) /\
  (14 <= 40 <= Z.of_nat (length frame_A) /\ 40 < 2 ^ 32 /\
   40 < sizeof_ethernet_hdr_t + sizeof_ip_hdr_t + sizeof_tcp_hdr_t /\
   g_inet_flow_get_full G_LITTLE_ENDIAN 2 store_A5 table_A5 frame_A 40 5 0
   = Done (None, store_A5, table_A5)).
Proof.
  assert (14 <= 42 <= Z.of_nat (length frame_udp)) as H1 by (simpl; lia).
  assert (42 < 2 ^ 32) as H2 by lia.
  assert (exists b, frame_udp !! 23%nat = Some b /\ byte_val b <> IP_PROTOCOL_TCP) as H3.
  { exists "017"%byte. split; [reflexivity|]. vm_compute. discriminate. }
  assert (14 <= 40 <= Z.of_nat (length frame_A)) as H4 by (simpl; lia).
  assert (40 < 2 ^ 32) as H5 by lia.
  assert (40 < sizeof_ethernet_hdr_t + sizeof_ip_hdr_t + sizeof_tcp_hdr_t) as H6
    by (vm_compute; reflexivity).
  split.
  - split; [exact H1|]. split; [exact H2|]. split; [exact H3|].
    exact (proj1 truncated_link_header_changes_table G_LITTLE_ENDIAN 1 []
             g_inet_flow_table_new frame_udp 42 0 0 H1 H2 (or_intror (or_intror (or_intror H3)))).
  - split; [exact H4|]. split; [exact H5|]. split; [exact H6|].
    exact (proj1 truncated_link_header_changes_table G_LITTLE_ENDIAN 2 store_A5 table_A5
             frame_A 40 5 0 H4 H5 (or_intror (or_intror (or_introl H6)))).
Defined.

(** C2, as the code has it: a call whose frame parses is a hit exactly
    when the table holds a record with a structurally equal key in an
    entry stored under the hash this lookup uses (the hash handed in
    when that is not zero, the computed one otherwise; GLib reads 0 and
    1 as 2).  The hash never stands in for the comparison: frames with
    different keys and the same hash from outside end up in different
    records.  The other way round the hash does count: a record with
    the key of the frame that was stored under another hash is not
    found. *)
Theorem hit_iff_key_stored (bo : byte_order) (now : Z) (heap : list GInetFlow)
    (t : GInetFlowTable) (frame : list byte) (len h ts : Z) (packet : GInetFlow)
    (r : option nat) (heap' : list GInetFlow) (t' : GInetFlowTable) :
  table_ok heap t ->
  flow_parse flow_zero frame len h = Done (true, packet) ->
  g_inet_flow_get_full bo now heap t frame len h ts = Done (r, heap', t') ->
  (is_hit heap r <-> key_stored bo heap t packet) /\
  (forall n f,
     n ∈ table t -> heap !! node_key n = Some f -> tuple f = tuple packet ->
     node_hash n = real_hash (flow_hash bo packet).1 -> r = Some (node_key n)) /\
  (forall now2 frame2 len2 ts2 packet2 r2 heap2 t2,
     flow_parse flow_zero frame2 len2 h = Done (true, packet2) ->
     tuple packet2 <> tuple packet ->
     g_inet_flow_get_full bo now2 heap' t' frame2 len2 h ts2 = Done (r2, heap2, t2) ->
     exists p p2 f f2, r = Some p /\ r2 = Some p2 /\ p <> p2 /\
       heap2 !! p = Some f /\ heap2 !! p2 = Some f2 /\
       tuple f = tuple packet /\ tuple f2 = tuple packet2).
Proof.
  intros Hok Hp Hget. split; [|split].
  - split.
    + intros (p & -> & Hlt).
      destruct (get_full_step bo now heap t frame len h ts packet Hok Hp)
        as [(n & f & Hin & Hm & Hf & Heq)|[_ Heq]];
        rewrite Heq in Hget; injection Hget as Hr _ _.
      * apply node_matches_true in Hm as [Hhash (f' & Hf' & Ht)].
        exists n, f'. done.
      * lia.
    + intros (n & f & Hin & Hf & Ht & Hhash).
      assert (node_matches heap (real_hash (flow_hash bo packet).1) packet n = true) as Hm
        by (apply node_matches_true; eauto).
      destruct (get_full_hit bo now heap t frame len h ts packet n Hok Hp Hin Hm)
        as (f' & Hf' & _ & Heq).
      rewrite Heq in Hget. injection Hget as <- <- <-.
      exists (node_key n). split; [done|]. by eapply lookup_lt_Some.
  - intros n f Hin Hf Ht Hhash.
    assert (node_matches heap (real_hash (flow_hash bo packet).1) packet n = true) as Hm
      by (apply node_matches_true; eauto).
    destruct (get_full_hit bo now heap t frame len h ts packet n Hok Hp Hin Hm)
      as (f' & Hf' & _ & Heq).
    rewrite Heq in Hget. by injection Hget as <- _ _.
  - intros now2 frame2 len2 ts2 packet2 r2 heap2 t2 Hp2 Hne Hget2.
    pose proof (get_full_ok bo now heap t frame len h ts r heap' t' Hok Hget) as Hok'.
    destruct (get_full_result bo now heap t frame len h ts packet r heap' t' Hok Hp Hget)
      as (p & f & -> & Hf & Ht & _).
    destruct (get_full_result bo now2 heap' t' frame2 len2 h ts2 packet2 r2 heap2 t2
                Hok' Hp2 Hget2) as (p2 & f2 & -> & Hf2 & Ht2 & _).
    destruct (get_full_records bo now2 heap' t' frame2 len2 h ts2 (Some p2) heap2 t2
                Hok' Hget2 p f Hf) as (f' & Hf' & Ht' & _).
    exists p, p2, f', f2. split; [done|]. split; [done|].
    split; [intros ->; congruence|]. split; [done|]. split; [done|]. split; congruence.
Qed.

Lemma hit_iff_key_stored_witness :
  table_ok store_A5 table_A5 /\
  flow_parse flow_zero frame_A 54 5 = Done (true, set_hash packet_A 5) /\
  g_inet_flow_get_full G_LITTLE_ENDIAN 2 store_A5 table_A5 frame_A 54 5 0
  = Done (Some 0%nat, [Flow 2 G_SOCKET_FAMILY_IPV4 5 (tuple packet_A) 0],
          Table [Node 5 0%nat 0%nat] [0%nat] 1 1) /\
  key_stored G_LITTLE_ENDIAN store_A5 table_A5 (set_hash packet_A 5) /\
  is_hit store_A5 (Some 0%nat) /\
  (forall n f,
     n ∈ table table_A5 -> store_A5 !! node_key n = Some f ->
     tuple f = tuple (set_hash packet_A 5) ->
     node_hash n = real_hash (flow_hash G_LITTLE_ENDIAN (set_hash packet_A 5)).1 ->
     Some 0%nat = Some (node_key n)) /\
  flow_parse flow_zero frame_B 54 5 = Done (true, set_hash packet_B 5) /\
  tuple (set_hash packet_B 5) <> tuple (set_hash packet_A 5) /\
  g_inet_flow_get_full G_LITTLE_ENDIAN 3 [Flow 2 G_SOCKET_FAMILY_IPV4 5 (tuple packet_A) 0]
    (Table [Node 5 0%nat 0%nat] [0%nat] 1 1) frame_B 54 5 0
  = Done (Some 1%nat,
          [Flow 2 G_SOCKET_FAMILY_IPV4 5 (tuple packet_A) 0;
           Flow 3 G_SOCKET_FAMILY_IPV4 5 (tuple packet_B) 0],
          Table [Node 5 1%nat 1%nat; Node 5 0%nat 0%nat] [1%nat; 0%nat] 1 2) /\
  (exists p p2 f f2,
     Some 0%nat = Some p /\ Some 1%nat = Some p2 /\ p <> p2 /\
     [Flow 2 G_SOCKET_FAMILY_IPV4 5 (tuple packet_A) 0;
      Flow 3 G_SOCKET_FAMILY_IPV4 5 (tuple packet_B) 0] !! p = Some f /\
     [Flow 2 G_SOCKET_FAMILY_IPV4 5 (tuple packet_A) 0;
      Flow 3 G_SOCKET_FAMILY_IPV4 5 (tuple packet_B) 0] !! p2 = Some f2 /\
     tuple f = tuple (set_hash packet_A 5) /\ tuple f2 = tuple (set_hash packet_B 5)).
Proof.
  assert (table_ok store_A5 table_A5) as Hok.
  { apply (get_full_ok G_LITTLE_ENDIAN 1 [] g_inet_flow_table_new frame_A 54 5 0
             (Some 0%nat) store_A5 table_A5 table_ok_new).
    vm_compute. reflexivity. }
  assert (flow_parse flow_zero frame_A 54 5 = Done (true, set_hash packet_A 5)) as Hp
    by reflexivity.
  assert (g_inet_flow_get_full G_LITTLE_ENDIAN 2 store_A5 table_A5 frame_A 54 5 0
          = Done (Some 0%nat, [Flow 2 G_SOCKET_FAMILY_IPV4 5 (tuple packet_A) 0],
                  Table [Node 5 0%nat 0%nat] [0%nat] 1 1)) as Hget
    by (vm_compute; reflexivity).
  assert (key_stored G_LITTLE_ENDIAN store_A5 table_A5 (set_hash packet_A 5)) as Hkey.
  { exists (Node 5 0%nat 0%nat), (Flow 1 G_SOCKET_FAMILY_IPV4 5 (tuple packet_A) 0).
    split; [apply list_elem_of_here|]. split; [reflexivity|]. split; reflexivity. }
  assert (flow_parse flow_zero frame_B 54 5 = Done (true, set_hash packet_B 5)) as Hp2
    by reflexivity.
  assert (tuple (set_hash packet_B 5) <> tuple (set_hash packet_A 5)) as Hne
    by (intros H; discriminate H).
  assert (g_inet_flow_get_full G_LITTLE_ENDIAN 3
            [Flow 2 G_SOCKET_FAMILY_IPV4 5 (tuple packet_A) 0]
            (Table [Node 5 0%nat 0%nat] [0%nat] 1 1) frame_B 54 5 0
          = Done (Some 1%nat,
                  [Flow 2 G_SOCKET_FAMILY_IPV4 5 (tuple packet_A) 0;
                   Flow 3 G_SOCKET_FAMILY_IPV4 5 (tuple packet_B) 0],
                  Table [Node 5 1%nat 1%nat; Node 5 0%nat 0%nat] [1%nat; 0%nat] 1 2)) as Hget2
    by (vm_compute; reflexivity).
  pose proof (hit_iff_key_stored G_LITTLE_ENDIAN 2 store_A5 table_A5 frame_A 54 5 0
                (set_hash packet_A 5) (Some 0%nat) _ _ Hok Hp Hget) as (Hiff & Hsame & Hother).
  split; [exact Hok|]. split; [exact Hp|]. split; [exact Hget|]. split; [exact Hkey|].
  split; [exact (proj2 Hiff Hkey)|]. split; [exact Hsame|].
  split; [exact Hp2|]. split; [exact Hne|]. split; [exact Hget2|].
  exact (Hother 3 frame_B 54 0 (set_hash packet_B 5) (Some 1%nat) _ _ Hp2 Hne Hget2).
Defined.

(** GLib keeps the hash values 0 and 1 for slots that are empty or
    given up and stores a key with such a hash under 2: a record made
    with the hash 1 handed in lies under 2 and is found again with the
    hash 2 handed in. *)
Example hash_one_stored_under_two :
  g_inet_flow_get_full G_LITTLE_ENDIAN 1 [] g_inet_flow_table_new frame_A 54 1 0
  = Done (Some 0%nat, [Flow 1 G_SOCKET_FAMILY_IPV4 1 (tuple packet_A) 0],
          Table [Node 2 0%nat 0%nat] [0%nat] 0 1) /\
  g_inet_flow_get_full G_LITTLE_ENDIAN 2 [Flow 1 G_SOCKET_FAMILY_IPV4 1 (tuple packet_A) 0]
    (Table [Node 2 0%nat 0%nat] [0%nat] 0 1) frame_A 54 2 0
  = Done (Some 0%nat, [Flow 2 G_SOCKET_FAMILY_IPV4 1 (tuple packet_A) 0],
          Table [Node 2 0%nat 0%nat] [0%nat] 1 1).
Proof. split; vm_compute; reflexivity. Qed.

(** C2, as the claim has it, fails: after [frame_A] was looked up with
    the hash 5 from outside, the table holds a record with its key;
    the same frame looked up with the hash 7 does not hit it, a second
    record with the same key is made. *)
Lemma same_key_other_hash_misses :
  exists heap t r heap' t',
    g_inet_flow_get_full G_LITTLE_ENDIAN 1 [] g_inet_flow_table_new frame_A 54 5 0
    = Done (Some 0%nat, heap, t) /\
    flow_parse flow_zero frame_A 54 7 = Done (true, set_hash packet_A 7) /\
    g_inet_flow_get_full G_LITTLE_ENDIAN 2 heap t frame_A 54 7 0 = Done (r, heap', t') /\
    key_present heap t (set_hash packet_A 7) /\
    ~ is_hit heap r /\
    g_inet_flow_table_get_property t' TABLE_SIZE = Some (GUInt64 2).
Proof.
  exists [Flow 1 G_SOCKET_FAMILY_IPV4 5 (tuple packet_A) 0], (Table [Node 5 0 0] [0%nat] 0 1),
    (Some 1%nat),
    [Flow 1 G_SOCKET_FAMILY_IPV4 5 (tuple packet_A) 0;
     Flow 2 G_SOCKET_FAMILY_IPV4 7 (tuple packet_A) 0],
    (Table [Node 7 1 1; Node 5 0 0] [1%nat; 0%nat] 0 2).
  split. { vm_compute. reflexivity. }
  split. { reflexivity. }
  split. { vm_compute. reflexivity. }
  split.
  { exists (Node 5 0 0), (Flow 1 G_SOCKET_FAMILY_IPV4 5 (tuple packet_A) 0).
    split; [apply list_elem_of_here|]. split; reflexivity. }
  split.
  { intros (p & [= <-] & Hlt). cbn in Hlt. lia. }
  reflexivity.
Qed.

(** ** The hash over the bytes of the key *)

Lemma bits_msb_first_join (m : nat) (hi lo : Z) :
  0 <= lo < 256 ->
  bits_msb_first (m + 8) (hi * 256 + lo) = bits_msb_first m hi ++ bits_msb_first 8 lo.
Proof.
  intros Hlo. rewrite bits_msb_first_add. f_equal.
  - f_equal. rewrite Z.shiftr_div_pow2 by lia. change (2 ^ Z.of_nat 8) with 256.
    rewrite Z.div_add_l by lia. rewrite (Z.div_small lo) by lia. lia.
  - apply bits_msb_first_ext. intros i Hi.
    rewrite <- (Z.mod_pow2_bits_low (hi * 256 + lo) 8) by lia. f_equal.
    change (2 ^ 8) with 256. rewrite Z.add_comm, Z.mod_add by lia. apply Z.mod_small. lia.
Qed.

(** The number the host reads in an address word has the bytes of the
    word for its bits, the byte the host takes for the most significant
    one first. *)
Lemma host32_bits (bo : byte_order) (w : raw32) :
  bits_msb_first 32 (host32 bo w) = word_bits bo w.
Proof.
  destruct w as [[[a b] c] d]. unfold host32, word_bits, byte_bits.
  pose proof (byte_val_range a). pose proof (byte_val_range b).
  pose proof (byte_val_range c). pose proof (byte_val_range d).
  change (2 ^ 24) with 16777216. change (2 ^ 16) with 65536. change (2 ^ 8) with 256.
  destruct bo.
  - replace (byte_val d * 16777216 + byte_val c * 65536 + byte_val b * 256 + byte_val a)
      with (((byte_val d * 256 + byte_val c) * 256 + byte_val b) * 256 + byte_val a) by lia.
    rewrite (bits_msb_first_join 24), (bits_msb_first_join 16) by done.
    replace (byte_val d * 256 + byte_val c) with ((0 * 256 + byte_val d) * 256 + byte_val c)
      by lia.
    rewrite (bits_msb_first_join 8), (bits_msb_first_join 0) by done.
    by rewrite <- !app_assoc.
  - replace (byte_val a * 16777216 + byte_val b * 65536 + byte_val c * 256 + byte_val d)
      with (((byte_val a * 256 + byte_val b) * 256 + byte_val c) * 256 + byte_val d) by lia.
    rewrite (bits_msb_first_join 24), (bits_msb_first_join 16) by done.
    replace (byte_val a * 256 + byte_val b) with ((0 * 256 + byte_val a) * 256 + byte_val b)
      by lia.
    rewrite (bits_msb_first_join 8), (bits_msb_first_join 0) by done.
    by rewrite <- !app_assoc.
Qed.

Lemma tuple_hash_spec_bytes (bo : byte_order) (k : flow_tuple) :
  tuple_hash_spec bo k = tuple_hash_bytes bo k.
Proof.
  unfold tuple_hash_spec, tuple_hash_bytes, address_port_bits, side_message, protocol_bits,
    protocol_message.
  destruct (lower_ip k) as [[[l0 l1] l2] l3]. destruct (upper_ip k) as [[[u0 u1] u2] u3].
  by rewrite !host32_bits.
Qed.

Lemma flow_hash_bytes (bo : byte_order) (f : GInetFlow) :
  hash f = 0 ->
  flow_hash bo f = (tuple_hash_bytes bo (tuple f), set_hash f (tuple_hash_bytes bo (tuple f))).
Proof. intros Hz. rewrite <- tuple_hash_spec_bytes. by apply flow_hash_computed. Qed.

(** C9, as the code has it: for a record with no cached hash ([hash]
    is 0) the flow hash depends on the key and on the byte order of the
    host only.  It is the XOR of three CRC-16 sums, polynomial
    [0x1021], bits taken most significant first, each from the register
    [0xFFFF] and each over whole 64-bit words: over the four words of
    the lower address, each with the bytes in the order the host reads
    them as a number, then the lower port and 48 zero bits; the same
    for the upper side; and over the 8 bits of the protocol and 56 zero
    bits.  It is a 16-bit number, left in [hash], and records with
    equal keys and no cached hash hash alike.  A record with a hash
    that is not zero, computed before or handed in from outside, gets
    that hash back as it is, whatever its key, and stays as it is; and
    no call of the table changes the hash of a record that is there or
    the hash an entry is stored under. *)
Theorem flow_hash_crc16 (bo : byte_order) :
  (forall f, hash f = 0 ->
     flow_hash bo f
     = (tuple_hash_bytes bo (tuple f), set_hash f (tuple_hash_bytes bo (tuple f)))) /\
  (forall iv p, crc16 iv p = crc16_ccitt iv (bits_msb_first 64 p)) /\
  (forall k, 0 <= tuple_hash_bytes bo k < 2 ^ 16) /\
  (forall f g, hash f = 0 -> hash g = 0 -> tuple f = tuple g ->
     (flow_hash bo f).1 = (flow_hash bo g).1) /\
  (forall f, hash f <> 0 -> flow_hash bo f = (hash f, f)) /\
  (forall now heap t frame len h ts r heap' t',
     table_ok heap t ->
     g_inet_flow_get_full bo now heap t frame len h ts = Done (r, heap', t') ->
     (forall p f, heap !! p = Some f ->
        exists f', heap' !! p = Some f' /\ hash f' = hash f) /\
     (forall n, n ∈ table t -> n ∈ table t')).
Proof.
  split; [exact (flow_hash_bytes bo)|].
  split; [exact crc16_spec|].
  split.
  { intros k. unfold tuple_hash_bytes. change (2 ^ 16) with 65536.
    apply (lxor_range _ _ 16); [lia| |apply crc16_ccitt_range; lia].
    apply (lxor_range _ _ 16); [lia| |]; apply crc16_ccitt_range; lia. }
  split; [intros f g Hf Hg Ht; apply flow_hash_ext; congruence|].
  split; [exact (flow_hash_cached bo)|].
  intros now heap t frame len h ts r heap' t' Hok Hget. split.
  - intros p f Hf.
    destruct (get_full_records bo now heap t frame len h ts r heap' t' Hok Hget p f Hf)
      as (f' & Hf' & _ & Hh & _).
    by exists f'.
  - intros n Hin.
    destruct (get_full_cases bo now heap t frame len h ts r heap' t' Hok Hget)
      as [(_ & _ & -> & _)|[(p & _ & _ & _ & _ & -> & _)|(hv & _ & _ & -> & _)]];
      [done|done|by apply list_elem_of_further].
Qed.

Lemma flow_hash_crc16_witness :
  hash packet_A = 0 /\
  flow_hash G_LITTLE_ENDIAN packet_A = (4113, set_hash packet_A 4113) /\
  flow_hash G_BIG_ENDIAN packet_A = (10031, set_hash packet_A 10031) /\
  tuple_hash_bytes G_LITTLE_ENDIAN (tuple packet_A) = 4113 /\
  tuple_hash_bytes G_BIG_ENDIAN (tuple packet_A) = 10031.
Proof.
  assert (hash packet_A = 0) as Hz by reflexivity.
  assert (tuple_hash_bytes G_LITTLE_ENDIAN (tuple packet_A) = 4113) as HL
    by (vm_compute; reflexivity).
  assert (tuple_hash_bytes G_BIG_ENDIAN (tuple packet_A) = 10031) as HB
    by (vm_compute; reflexivity).
  split; [exact Hz|]. split; [|split; [|split; [exact HL|exact HB]]].
  - rewrite <- HL at 1 2. exact (proj1 (flow_hash_crc16 G_LITTLE_ENDIAN) packet_A Hz).
  - rewrite <- HB at 1 2. exact (proj1 (flow_hash_crc16 G_BIG_ENDIAN) packet_A Hz).
Defined.

(** The loops of the source, run on the key of [frame_A], give the
    same numbers: 4113 where the host is little-endian, 10031 where it
    is big-endian; and the three CRCs of the little-endian host are
    21178, 62302 and 45557. *)
Example flow_hash_values :
  (flow_hash G_LITTLE_ENDIAN packet_A).1 = 4113 /\
  (flow_hash G_BIG_ENDIAN packet_A).1 = 10031 /\
  crc16 (crc16 (crc16 0xffff 0x0100000a00000000) 0) (443 * 2 ^ 48) = 21178 /\
  crc16 (crc16 (crc16 0xffff 0x0200000a00000000) 0) (51000 * 2 ^ 48) = 62302 /\
  crc16 0xffff (6 * 2 ^ 56) = 45557 /\
  Z.lxor (Z.lxor 21178 62302) 45557 = 4113.
Proof. repeat split; vm_compute; reflexivity. Qed.

(** C9, as the claim has it, fails.  The hash is not a function of the
    key: records with the key of [frame_A] and the hashes 5 and 7
    handed in hash to 5 and to 7, not to the 4113 of the record with no
    hash handed in.  And a CRC is run over whole 64-bit words, not over
    the bits of the fields alone: for the key of [frame_self], where
    the sums of the two sides cancel, the hash is 45557, the CRC of the
    protocol byte and 56 zero bits, not the CRC 33078 of the protocol
    byte; for the key of [frame_A] the fields alone give 32522. *)
Lemma equal_keys_hash_apart :
  tuple (set_hash packet_A 5) = tuple (set_hash packet_A 7) /\
  (flow_hash G_LITTLE_ENDIAN (set_hash packet_A 5)).1 = 5 /\
  (flow_hash G_LITTLE_ENDIAN (set_hash packet_A 7)).1 = 7 /\
  ~ (forall f g, tuple f = tuple g ->
       (flow_hash G_LITTLE_ENDIAN f).1 = (flow_hash G_LITTLE_ENDIAN g).1) /\
  flow_parse flow_zero frame_self 54 0 = Done (true, packet_self) /\
  (flow_hash G_LITTLE_ENDIAN packet_self).1 = 45557 /\
  (flow_hash G_BIG_ENDIAN packet_self).1 = 45557 /\
  tuple_hash_unpadded (tuple packet_self) = 33078 /\
  crc16_ccitt 0xffff (bits_msb_first 8 (protocol (tuple packet_self))) = 33078 /\
  (flow_hash G_LITTLE_ENDIAN packet_A).1 = 4113 /\
  tuple_hash_unpadded (tuple packet_A) = 32522.
Proof.
  split. { reflexivity. }
  split. { reflexivity. }
  split. { reflexivity. }
  split.
  { intros H. specialize (H (set_hash packet_A 5) (set_hash packet_A 7) eq_refl).
    vm_compute in H. discriminate H. }
  split. { reflexivity. }
  split. { vm_compute. reflexivity. }
  split. { vm_compute. reflexivity. }
  split. { vm_compute. reflexivity. }
  split. { vm_compute. reflexivity. }
  split. { vm_compute. reflexivity. }
  vm_compute. reflexivity.
Qed.

(** The CRC of the specification is the CRC-16/CCITT of the books: the
    check value of the digits 1 to 9 is [0x29B1]. *)
Example crc16_ccitt_check :
  crc16_ccitt 0xffff
    (concat (map (bits_msb_first 8) [0x31; 0x32; 0x33; 0x34; 0x35; 0x36; 0x37; 0x38; 0x39]))
  = 0x29B1.
Proof. vm_compute. reflexivity. Qed.

(** C10: after any run of calls on a new table the size of the hash
    table is the [misses] count (the run being shorter than [2^32]
    calls, the range of the size), and a further call either leaves the
    entries as they are or puts one new entry before them and counts one
    miss; no entry goes away and every record keeps its key. *)
Theorem size_equals_misses (bo : byte_order) (cs : list call) (rs : list (option nat))
    (heap : list GInetFlow) (t : GInetFlowTable) :
  run bo ([], g_inet_flow_table_new) cs = Done (rs, (heap, t)) ->
  Z.of_nat (length cs) < 2 ^ 32 ->
  g_inet_flow_table_get_property t TABLE_SIZE
  = g_inet_flow_table_get_property t TABLE_MISSES /\
  g_hash_table_size (table t) = misses t /\
  (forall c r heap' t',
     do_call bo (heap, t) c = Done (r, (heap', t')) ->
     ((is_hit heap r \/ r = None) /\ table t' = table t /\ misses t' = misses t
      \/ (r = Some (length heap) /\ length heap' = S (length heap) /\
          (exists n, table t' = n :: table t) /\ misses t' = u64 (misses t + 1))) /\
     (length (table t) <= length (table t'))%nat /\
     (forall p f, heap !! p = Some f ->
        exists f', heap' !! p = Some f' /\ tuple f' = tuple f)).
Proof.
  intros Hrun Hlen.
  pose proof (run_ok bo cs ([], g_inet_flow_table_new) rs (heap, t) table_ok_new Hrun) as Hok.
  pose proof (run_size bo cs ([], g_inet_flow_table_new) rs (heap, t) table_ok_new Hrun) as Hsize.
  cbn [fst snd length table g_inet_flow_table_new] in Hok, Hsize.
  assert (g_hash_table_size (table t) = misses t) as Heq.
  { rewrite (ok_misses _ _ Hok). unfold g_hash_table_size, u32, u64.
    rewrite !Z.mod_small; lia. }
  split; [unfold g_inet_flow_table_get_property; cbn; by rewrite Heq|].
  split; [done|].
  intros c r heap' t' Hc. apply do_call_inv in Hc. cbn [fst snd] in Hc.
  pose proof (get_full_records bo _ _ _ _ _ _ _ _ _ _ Hok Hc) as Hrec.
  destruct (get_full_cases bo _ _ _ _ _ _ _ _ _ _ Hok Hc)
    as [(-> & -> & -> & _)|[(p & -> & Hlt & _ & _ & Ht & _ & _ & Hm)|(hv & -> & Hl & Ht & _ & _ & Hm)]].
  - split; [left; eauto|]. split; [done|]. intros p f Hf. by exists f.
  - split; [left; split; [left; by exists p|done]|]. split; [by rewrite Ht|].
    intros q f Hf. destruct (Hrec q f Hf) as (f' & Hf' & Ht' & _). by exists f'.
  - split; [right; eauto 10|]. split; [rewrite Ht; cbn; lia|].
    intros q f Hf. destruct (Hrec q f Hf) as (f' & Hf' & Ht' & _). by exists f'.
Qed.

Lemma size_equals_misses_witness :
  run G_LITTLE_ENDIAN ([], g_inet_flow_table_new) calls_ABA
  = Done (results_of G_LITTLE_ENDIAN calls_ABA, state_after G_LITTLE_ENDIAN calls_ABA) /\
  Z.of_nat (length calls_ABA) < 2 ^ 32 /\
  g_hash_table_size (table (state_after G_LITTLE_ENDIAN calls_ABA).2) = 2 /\
  g_hash_table_size (table (state_after G_LITTLE_ENDIAN calls_ABA).2)
  = misses (state_after G_LITTLE_ENDIAN calls_ABA).2.
Proof.
  assert (run G_LITTLE_ENDIAN ([], g_inet_flow_table_new) calls_ABA
          = Done (results_of G_LITTLE_ENDIAN calls_ABA,
                  ((state_after G_LITTLE_ENDIAN calls_ABA).1,
                   (state_after G_LITTLE_ENDIAN calls_ABA).2)))
    as Hrun by (vm_compute; reflexivity).
  split; [vm_compute; reflexivity|]. split; [reflexivity|]. split; [vm_compute; reflexivity|].
  exact (proj1 (proj2 (size_equals_misses G_LITTLE_ENDIAN calls_ABA _ _ _ Hrun eq_refl))).
Defined.

(** C7: on a new table, calls for [N] frames with pairwise distinct
    keys are [N] misses and no hit; calls for the same flows once more,
    in any order and each with the hash its flow was first given (none,
    for plain [g_inet_flow_get]), are [N] hits, and the misses stay at
    [N].  (The counters are 64-bit numbers, so [N] is below [2^64].) *)
Theorem hit_miss_accounting (bo : byte_order) (cs1 cs2 : list call) :
  Forall (fun c => is_Some (call_key c)) cs1 ->
  NoDup (call_key <$> cs1) ->
  (fun c => (call_key c, call_hash c)) <$> cs2
    ≡ₚ (fun c => (call_key c, call_hash c)) <$> cs1 ->
  Z.of_nat (length cs1) < 2 ^ 64 ->
  exists rs1 heap1 t1 rs2 heap2 t2,
    run bo ([], g_inet_flow_table_new) cs1 = Done (rs1, (heap1, t1)) /\
    misses t1 = Z.of_nat (length cs1) /\ hits t1 = 0 /\
    run bo (heap1, t1) cs2 = Done (rs2, (heap2, t2)) /\
    hits t2 = Z.of_nat (length cs1) /\ misses t2 = Z.of_nat (length cs1).
Proof.
  intros Hsome Hnodup Hperm Hlen.
  destruct (run_misses bo cs1 [] g_inet_flow_table_new table_ok_new Hsome Hnodup)
    as (heap1 & t1 & Hrun1 & Hok1 & _ & Hhits1 & Hmiss1 & Hst).
  { intros c n f _ Hin. by apply elem_of_nil in Hin. }
  cbn [hits misses g_inet_flow_table_new] in Hhits1, Hmiss1.
  assert (u64 (Z.of_nat (length cs1)) = Z.of_nat (length cs1)) as Hu64
    by (unfold u64; apply Z.mod_small; lia).
  rewrite Z.add_0_l, Hu64 in Hmiss1.
  destruct (run_hits bo cs2 heap1 t1 Hok1) as (rs2 & heap2 & t2 & Hrun2 & _ & _ & Hhits2 & Hmiss2).
  { intros c2 Hc2.
    assert ((call_key c2, call_hash c2) ∈ (fun c => (call_key c, call_hash c)) <$> cs1) as Hin.
    { rewrite <- Hperm. by apply (list_elem_of_fmap_2 (fun c => (call_key c, call_hash c))). }
    apply list_elem_of_fmap in Hin as (c1 & [= Hk Hh] & Hc1).
    apply list_elem_of_lookup_1 in Hc1 as [i Hi].
    exists (length (@nil GInetFlow) + i)%nat.
    apply (stored_same_key bo heap1 t1 c1 c2); [done|done| |by apply Hst].
    rewrite Hk. rewrite Forall_forall in Hsome. apply Hsome.
    by eapply list_elem_of_lookup_2. }
  assert (length cs2 = length cs1) as Hlen2.
  { apply Permutation_length in Hperm. by rewrite !length_fmap in Hperm. }
  rewrite Hhits1, Hlen2, Z.add_0_l, Hu64 in Hhits2. rewrite Hmiss1 in Hmiss2.
  eauto 12.
Qed.

Lemma hit_miss_accounting_witness :
  exists rs1 heap1 t1 rs2 heap2 t2,
    run G_LITTLE_ENDIAN ([], g_inet_flow_table_new) calls_ABC = Done (rs1, (heap1, t1)) /\
    misses t1 = 3 /\ hits t1 = 0 /\
    run G_LITTLE_ENDIAN (heap1, t1) calls_CAB = Done (rs2, (heap2, t2)) /\
    hits t2 = 3 /\ misses t2 = 3.
Proof.
  apply (hit_miss_accounting G_LITTLE_ENDIAN calls_ABC calls_CAB).
  - repeat constructor; eexists; vm_compute; reflexivity.
  - vm_compute.
    repeat (apply NoDup_cons; split;
            [intros H; repeat (apply elem_of_cons in H as [H|H]; [discriminate H|]);
             by apply elem_of_nil in H|]).
    apply NoDup_nil_2.
  - vm_compute. apply (Permutation_app_comm [_] [_; _]).
  - vm_compute. reflexivity.
Defined.

(** C8: the list [g_inet_flow_foreach] walks has the record touched
    last at its head.  A hit takes the record out of the list and puts
    it at the head, a miss puts the new record at the head; so after
    the flows A, B, C were seen in this order and A once more, the walk
    visits A, C, B. *)
Theorem recency_order (bo : byte_order) :
  (forall now heap t frame len h ts r heap' t',
     table_ok heap t ->
     g_inet_flow_get_full bo now heap t frame len h ts = Done (Some r, heap', t') ->
     (is_hit heap (Some r) ->
        r ∈ list_ t /\ list_ t' = r :: g_list_remove (list_ t) r) /\
     (~ is_hit heap (Some r) -> (r ∉ list_ t) /\ list_ t' = r :: list_ t)) /\
  (forall cA cB cC ts' now',
     is_Some (call_key cA) -> is_Some (call_key cB) -> is_Some (call_key cC) ->
     call_key cA <> call_key cB -> call_key cA <> call_key cC ->
     call_key cB <> call_key cC ->
     exists heap t,
       run bo ([], g_inet_flow_table_new)
         [cA; cB; cC; Call (call_frame cA) (call_length cA) (call_hash cA) ts' now']
       = Done ([Some 0; Some 1; Some 2; Some 0]%nat, (heap, t)) /\
       g_inet_flow_foreach t (fun flow visited => visited ++ [flow]) [] = [0; 2; 1]%nat).
Proof.
  split.
  - intros now heap t frame len h ts r heap' t' Hok Hget.
    destruct (get_full_cases bo now heap t frame len h ts (Some r) heap' t' Hok Hget)
      as [(? & _)|[(p & [= ->] & Hlt & Hin & _ & _ & Hl & _)|(hv & [= ->] & _ & _ & Hl & _)]];
      [done| |].
    + split; [done|]. intros []. by exists p.
    + split; [intros (p & [= <-] & ?); lia|]. intros _. split; [|done].
      rewrite (ok_list _ _ Hok). intros (n & Hn & Hin)%list_elem_of_fmap.
      pose proof (ok_nodes _ _ Hok) as Hnodes. rewrite Forall_forall in Hnodes.
      destruct (Hnodes n Hin). lia.
  - intros cA cB cC ts' now' HA HB HC HAB HAC HBC.
    destruct (run_misses bo [cA; cB; cC] [] g_inet_flow_table_new table_ok_new)
      as (heap3 & t3 & Hrun & Hok3 & Hlist & _ & _ & Hst).
    + by repeat constructor.
    + cbn [fmap list_fmap].
      repeat (apply NoDup_cons; split;
              [intros H; repeat (apply elem_of_cons in H as [H|H]; [done|]);
               by apply elem_of_nil in H|]).
      apply NoDup_nil_2.
    + intros c n f _ Hin. by apply elem_of_nil in Hin.
    + cbn [length seq rev app fmap list_fmap g_inet_flow_table_new list_] in Hrun, Hlist.
      set (cA' := Call (call_frame cA) (call_length cA) (call_hash cA) ts' now').
      assert (stored bo heap3 t3 cA' 0) as (packet & n & Hp & Hin & Hkey & Hm).
      { apply (stored_same_key bo heap3 t3 cA cA'); [done|done|done|]. by apply (Hst 0%nat). }
      destruct (get_full_hit bo now' heap3 t3 _ _ _ ts' packet n Hok3 Hp Hin Hm)
        as (f & Hf & _ & Hget).
      rewrite Hkey, Hlist in Hget. cbn [g_list_remove Nat.eqb] in Hget.
      do 2 eexists. split.
      * apply (run_app bo [cA; cB; cC] [cA'] _ _ _ [Some 0%nat] _ Hrun).
        eapply run_cons_eq; [by apply do_call_eq|done].
      * reflexivity.
Qed.

Lemma recency_order_witness :
  exists heap t,
    run G_LITTLE_ENDIAN ([], g_inet_flow_table_new)
      [observe frame_A 1; observe frame_B 2; observe frame_C 3;
       Call (call_frame (observe frame_A 1)) (call_length (observe frame_A 1))
            (call_hash (observe frame_A 1)) 0 4]
    = Done ([Some 0; Some 1; Some 2; Some 0]%nat, (heap, t)) /\
    g_inet_flow_foreach t (fun flow visited => visited ++ [flow]) [] = [0; 2; 1]%nat.
Proof.
  apply (proj2 (recency_order G_LITTLE_ENDIAN)
           (observe frame_A 1) (observe frame_B 2) (observe frame_C 3) 0 4).
  - eexists; vm_compute; reflexivity.
  - eexists; vm_compute; reflexivity.
  - eexists; vm_compute; reflexivity.
  - vm_compute. discriminate.
  - vm_compute. discriminate.
  - vm_compute. discriminate.
Defined.

(** * Further properties of the code *)

#[local] Opaque flow_hash.

(** ** The parser *)

Lemma obind_ext {A B} (k1 k2 : A -> outcome B) (m : outcome A) :
  (forall a, k1 a = k2 a) -> m ≫= k1 = m ≫= k2.
Proof. intros H. destruct m as [a|]; [apply H|done]. Qed.

(** The packet a successful parse leaves, read off the frame. *)
Lemma flow_parse_key (frame : list byte) (len h : Z) (packet : GInetFlow) :
  flow_parse flow_zero frame len h = Done (true, packet) ->
  exists saddr daddr sport dport,
    load32_raw frame 26 = Done saddr /\ load32_raw frame 30 = Done daddr /\
    load16_be frame 34 = Done sport /\ load16_be frame 36 = Done dport /\
    0 <= sport < 65536 /\ 0 <= dport < 65536 /\
    packet
    = Flow 0 G_SOCKET_FAMILY_IPV4 h
        (Tuple IP_PROTOCOL_TCP (Z.min sport dport) (Z.max sport dport)
           (if GINT32_FROM_BE saddr <? GINT32_FROM_BE daddr then saddr else daddr,
            raw32_zero, raw32_zero, raw32_zero)
           (if GINT32_FROM_BE saddr <? GINT32_FROM_BE daddr then daddr else saddr,
            raw32_zero, raw32_zero, raw32_zero))
        0.
Proof.
  intros H. pose proof (flow_parse_length _ _ _ _ _ H) as Hlen.
  do 38 (destruct frame as [|? frame]; [simpl in Hlen; lia|]). clear Hlen.
  revert H. unfold flow_parse, flow_parse_ipv4, flow_parse_tcp. parse_loads.
  destruct (_ =? ETH_PROTOCOL_IP); [|done].
  destruct (_ <? sizeof_ip_hdr_t); [done|].
  match goal with |- context [byte_val ?b =? IP_PROTOCOL_TCP] => set (proto := b) end.
  destruct (Z.eqb_spec (byte_val proto) IP_PROTOCOL_TCP) as [Hpr|]; [|done].
  destruct (_ <? sizeof_tcp_hdr_t); [done|].
  match goal with |- context [if be16 ?a ?b <? be16 ?c ?d then _ else _] =>
    set (sport := be16 a b); set (dport := be16 c d);
    assert (0 <= sport < 65536 /\ 0 <= dport < 65536) as [Hs Hd]
      by (unfold sport, dport, be16;
          pose proof (byte_val_range a); pose proof (byte_val_range b);
          pose proof (byte_val_range c); pose proof (byte_val_range d); lia)
  end.
  match goal with |- context [if GINT32_FROM_BE ?a <? GINT32_FROM_BE ?b then _ else _] =>
    set (saddr := a); set (daddr := b) end.
  intros Heq. exists saddr, daddr, sport, dport.
  split; [done|]. split; [done|]. split; [done|]. split; [done|].
  split; [done|]. split; [done|].
  destruct (GINT32_FROM_BE saddr <? GINT32_FROM_BE daddr);
    destruct (Z.ltb_spec sport dport); injection Heq as <-;
    cbv [set_tuple set_hash set_family set_upper_ip0 set_lower_ip0 set_protocol
         set_upper_port set_lower_port flow_zero ip_array_set0 ip_array_zero tuple
         timestamp family hash context protocol lower_port upper_port lower_ip upper_ip];
    rewrite Hpr; f_equal; f_equal; lia.
Qed.

(** X1: [flow_compare] holds exactly when the two keys are equal field
    for field; it is symmetric, and the hash, the family, the time
    stamp and the context of the flows play no part. *)
Theorem flow_compare_equivalence (f1 f2 : GInetFlow) :
  (flow_compare f1 f2 = true <-> tuple f1 = tuple f2) /\
  flow_compare f1 f2 = flow_compare f2 f1 /\
  (forall ts fam h ctx ts' fam' h' ctx',
     flow_compare (Flow ts fam h (tuple f1) ctx) (Flow ts' fam' h' (tuple f2) ctx')
     = flow_compare f1 f2).
Proof.
  split; [apply flow_compare_true|]. split.
  - destruct (flow_compare f1 f2) eqn:H12, (flow_compare f2 f1) eqn:H21; try done.
    + apply flow_compare_true in H12. symmetry in H12.
      apply flow_compare_true in H12. congruence.
    + apply flow_compare_true in H21. symmetry in H21.
      apply flow_compare_true in H21. congruence.
  - intros. by apply flow_compare_tuple.
Qed.

(** X2: the key of a frame that parses is in canonical form: the
    protocol is 6, the family IPv4, the hash the one handed in; the
    lower port is the smaller and the upper port the larger of the two
    ports of the frame; the lower address is the one of the two
    addresses of the frame that is smaller as a big-endian number (the
    destination when they are equal), kept in the bytes of the frame in
    word 0, with words 1 to 3 zero. *)
Theorem parsed_key_canonical (frame : list byte) (len h : Z) (packet : GInetFlow) :
  flow_parse flow_zero frame len h = Done (true, packet) ->
  exists saddr daddr sport dport,
    load32_raw frame 26 = Done saddr /\ load32_raw frame 30 = Done daddr /\
    load16_be frame 34 = Done sport /\ load16_be frame 36 = Done dport /\
    timestamp packet = 0 /\ family packet = G_SOCKET_FAMILY_IPV4 /\
    hash packet = h /\ context packet = 0 /\
    protocol (tuple packet) = IP_PROTOCOL_TCP /\
    lower_port (tuple packet) = Z.min sport dport /\
    upper_port (tuple packet) = Z.max sport dport /\
    0 <= lower_port (tuple packet) /\ lower_port (tuple packet) <= upper_port (tuple packet) /\
    upper_port (tuple packet) < 65536 /\
    lower_ip (tuple packet)
    = (if GINT32_FROM_BE saddr <? GINT32_FROM_BE daddr then saddr else daddr,
       raw32_zero, raw32_zero, raw32_zero) /\
    upper_ip (tuple packet)
    = (if GINT32_FROM_BE saddr <? GINT32_FROM_BE daddr then daddr else saddr,
       raw32_zero, raw32_zero, raw32_zero) /\
    GINT32_FROM_BE (lower_ip (tuple packet)).1.1.1
    <= GINT32_FROM_BE (upper_ip (tuple packet)).1.1.1.
Proof.
  intros H.
  destruct (flow_parse_key frame len h packet H)
    as (saddr & daddr & sport & dport & Hs & Hd & Hsp & Hdp & Hr1 & Hr2 & ->).
  exists saddr, daddr, sport, dport. cbn [timestamp family hash context tuple protocol
    lower_port upper_port lower_ip upper_ip fst].
  repeat (split; [done || lia|]).
  destruct (Z.ltb_spec (GINT32_FROM_BE saddr) (GINT32_FROM_BE daddr)); lia.
Qed.

Lemma parsed_key_canonical_witness :
  flow_parse flow_zero frame_C 54 0 = Done (true, set_tuple packet_A
    (Tuple 6 80 51000
       (("010"%byte, "000"%byte, "000"%byte, "002"%byte), raw32_zero, raw32_zero, raw32_zero)
       (("192"%byte, "168"%byte, "001"%byte, "009"%byte), raw32_zero, raw32_zero,
        raw32_zero))) /\
  exists saddr daddr sport dport,
    load32_raw frame_C 26 = Done saddr /\ load32_raw frame_C 30 = Done daddr /\
    load16_be frame_C 34 = Done sport /\ load16_be frame_C 36 = Done dport /\
    sport = 51000 /\ dport = 80.
Proof.
  assert (flow_parse flow_zero frame_C 54 0 = Done (true, set_tuple packet_A
    (Tuple 6 80 51000
       (("010"%byte, "000"%byte, "000"%byte, "002"%byte), raw32_zero, raw32_zero, raw32_zero)
       (("192"%byte, "168"%byte, "001"%byte, "009"%byte), raw32_zero, raw32_zero,
        raw32_zero)))) as Hp by (vm_compute; reflexivity).
  split; [exact Hp|].
  destruct (parsed_key_canonical frame_C 54 0 _ Hp)
    as (saddr & daddr & sport & dport & Hs & Hd & Hsp & Hdp & _).
  exists saddr, daddr, sport, dport.
  split; [exact Hs|]. split; [exact Hd|]. split; [exact Hsp|]. split; [exact Hdp|].
  split.
  - vm_compute in Hsp. by injection Hsp as <-.
  - vm_compute in Hdp. by injection Hdp as <-.
Defined.

(** X3: a call that gives the length of the frame, 14 or more, is
    answered without a read outside the frame, and the frame is
    accepted exactly when its ethertype is IPv4, its protocol TCP and
    its length at least 54; every other such call is turned down. *)
Theorem parse_accepts_iff (frame : list byte) (len h : Z) :
  14 <= len <= Z.of_nat (length frame) -> len < 2 ^ 32 ->
  flow_parse flow_zero frame len h <> Undefined /\
  (parses frame len h <-> tcp_ipv4_frame frame /\ 54 <= len) /\
  (rejects frame len h <-> ~ (tcp_ipv4_frame frame /\ 54 <= len)).
Proof.
  intros Hlen Hmax.
  destruct (flow_parse_defined frame len h Hlen Hmax) as (ok & f & Hp & Hok).
  unfold parses, rejects, tcp_ipv4_frame. rewrite Hp.
  split; [done|]. split.
  - split.
    + intros [packet [= -> _]]. destruct (proj1 Hok eq_refl) as (? & ? & ?). done.
    + intros [[? ?] ?]. rewrite (proj2 Hok); [by exists f|done].
  - split.
    + intros [packet [= -> _]] [[? ?] ?]. discriminate (proj2 Hok). done.
    + intros Hn. destruct ok; [|by exists f]. exfalso. apply Hn.
      destruct (proj1 Hok eq_refl) as (? & ? & ?). done.
Qed.

Lemma parse_accepts_iff_witness :
  (14 <= 42 <= Z.of_nat (length frame_udp) /\ 42 < 2 ^ 32) /\
  flow_parse flow_zero frame_udp 42 0 <> Undefined /\
  (rejects frame_udp 42 0 <-> ~ (tcp_ipv4_frame frame_udp /\ 54 <= 42)).
Proof.
  assert (14 <= 42 <= Z.of_nat (length frame_udp)) as H1 by (vm_compute; split; discriminate).
  assert (42 < 2 ^ 32) as H2 by reflexivity.
  split; [done|].
  destruct (parse_accepts_iff frame_udp 42 0 H1 H2) as (Hd & _ & Hr).
  split; [exact Hd|exact Hr].
Defined.

Lemma load16_be_agree (d d' : list byte) (off : nat) :
  d !! off = d' !! off -> d !! (off + 1)%nat = d' !! (off + 1)%nat ->
  load16_be d off = load16_be d' off.
Proof. unfold load16_be, load8. by intros -> ->. Qed.

Lemma load32_raw_agree (d d' : list byte) (off : nat) :
  d !! off = d' !! off -> d !! (off + 1)%nat = d' !! (off + 1)%nat ->
  d !! (off + 2)%nat = d' !! (off + 2)%nat -> d !! (off + 3)%nat = d' !! (off + 3)%nat ->
  load32_raw d off = load32_raw d' off.
Proof. unfold load32_raw, load8. by intros -> -> -> ->. Qed.

Lemma flow_parse_tcp_reads (f : GInetFlow) (d d' : list byte) (len : Z) :
  (forall i, Z.of_nat i < len -> d !! i = d' !! i) ->
  flow_parse_tcp f d len = flow_parse_tcp f d' len.
Proof.
  intros H. unfold flow_parse_tcp, sizeof_tcp_hdr_t.
  destruct (Z.ltb_spec len 20); [done|].
  rewrite (load16_be_agree d d' 0), (load16_be_agree d d' 2); [done|apply H; lia..].
Qed.

Lemma flow_parse_ipv4_reads (f : GInetFlow) (d d' : list byte) (len : Z) :
  len < 2 ^ 32 ->
  (forall i, Z.of_nat i < len -> d !! i = d' !! i) ->
  flow_parse_ipv4 f d len = flow_parse_ipv4 f d' len.
Proof.
  intros Hmax H. unfold flow_parse_ipv4, sizeof_ip_hdr_t.
  destruct (Z.ltb_spec len 20); [done|].
  rewrite (load32_raw_agree d d' 12), (load32_raw_agree d d' 16) by (apply H; lia).
  unfold load8. rewrite (H 9%nat) by lia.
  apply obind_ext. intros saddr. apply obind_ext. intros daddr.
  apply obind_ext. intros proto.
  destruct (byte_val proto =? IP_PROTOCOL_TCP); [|done].
  apply flow_parse_tcp_reads. intros i Hi. rewrite !lookup_drop. apply H.
  unfold u32 in Hi. rewrite Z.mod_small in Hi; lia.
Qed.

Lemma flow_parse_reads (f : GInetFlow) (frame frame' : list byte) (len h : Z) :
  14 <= len < 2 ^ 32 ->
  (forall i, Z.of_nat i < len -> frame !! i = frame' !! i) ->
  flow_parse f frame len h = flow_parse f frame' len h.
Proof.
  intros Hlen H. unfold flow_parse, sizeof_ethernet_hdr_t.
  rewrite (load16_be_agree frame frame' 12) by (apply H; lia).
  apply obind_ext. intros ethertype.
  destruct (ethertype =? ETH_PROTOCOL_IP); [|done].
  assert (u32 (len - 14) = len - 14) as Hu by (unfold u32; apply Z.mod_small; lia).
  apply flow_parse_ipv4_reads.
  - rewrite Hu. lia.
  - intros i Hi. rewrite !lookup_drop. apply H. lia.
Qed.

(** X4: with a length of 14 or more, [flow_parse] reads no byte at or
    past [length]: two frames with the same first [length] bytes get
    the same answer, the frame that ends after [length] bytes among
    them. *)
Theorem parse_reads_below_length (f : GInetFlow) (frame frame' : list byte) (len h : Z) :
  14 <= len < 2 ^ 32 ->
  (take (Z.to_nat len) frame = take (Z.to_nat len) frame' ->
   flow_parse f frame len h = flow_parse f frame' len h) /\
  flow_parse f (take (Z.to_nat len) frame) len h = flow_parse f frame len h.
Proof.
  intros Hlen.
  assert (forall a b : list byte, take (Z.to_nat len) a = take (Z.to_nat len) b ->
            forall i, Z.of_nat i < len -> a !! i = b !! i) as Hagree.
  { intros a b Heq i Hi.
    rewrite <- (lookup_take_lt a (Z.to_nat len) i), <- (lookup_take_lt b (Z.to_nat len) i) by lia.
    by rewrite Heq. }
  split.
  - intros Heq. apply flow_parse_reads; [done|]. by apply Hagree.
  - apply flow_parse_reads; [done|]. apply Hagree. by rewrite take_take, Nat.min_id.
Qed.

Lemma parse_reads_below_length_witness :
  14 <= 40 < 2 ^ 32 /\
  flow_parse flow_zero (take (Z.to_nat 40) frame_A) 40 0 = flow_parse flow_zero frame_A 40 0.
Proof.
  assert (14 <= 40 < 2 ^ 32) as H by (split; [discriminate|reflexivity]).
  split; [exact H|].
  exact (proj2 (parse_reads_below_length flow_zero frame_A frame_A 40 0 H)).
Defined.

(** X5: the answer of [flow_parse] depends on fifteen bytes of the
    frame only: the ethertype (12, 13), the protocol (23), the two
    addresses (26 to 33) and the two ports (34 to 37).  Hardware
    addresses, time to live, checksums, sequence numbers, flags and
    payload do not enter the key. *)
Theorem parse_reads_key_bytes (f : GInetFlow) (frame frame' : list byte) (len h : Z) :
  Forall (fun i => frame !! i = frame' !! i) key_offsets ->
  flow_parse f frame len h = flow_parse f frame' len h.
Proof.
  unfold key_offsets. intros H.
  repeat (apply Forall_cons in H as [? H]).
  unfold flow_parse, flow_parse_ipv4, flow_parse_tcp.
  rewrite (load16_be_agree frame frame' 12) by done.
  rewrite (load32_raw_agree (drop 14 frame) (drop 14 frame') 12),
          (load32_raw_agree (drop 14 frame) (drop 14 frame') 16) by (by rewrite !lookup_drop).
  rewrite (load16_be_agree (drop 20 (drop 14 frame)) (drop 20 (drop 14 frame')) 0),
          (load16_be_agree (drop 20 (drop 14 frame)) (drop 20 (drop 14 frame')) 2)
    by (by rewrite !lookup_drop).
  unfold load8. rewrite !lookup_drop. cbn [Nat.add].
  by replace (frame !! 23%nat) with (frame' !! 23%nat).
Qed.

Lemma parse_reads_key_bytes_witness :
  Forall (fun i => frame_A !! i = frame_A_other !! i) key_offsets /\
  frame_A <> frame_A_other /\
  flow_parse flow_zero frame_A_other 54 0 = Done (true, packet_A).
Proof.
  assert (Forall (fun i => frame_A !! i = frame_A_other !! i) key_offsets) as H
    by (repeat constructor).
  split; [exact H|]. split; [discriminate|].
  rewrite <- (parse_reads_key_bytes flow_zero frame_A frame_A_other 54 0 H).
  reflexivity.
Defined.

(** ** The hash *)

Lemma crc16_inner_S (n : nat) (iv b : Z) :
  crc16_inner (S n) iv b = crc16_inner n (crc16_step iv b (Z.of_nat n)) b.
Proof. unfold crc16_inner at 1. fold crc16_inner. exact eq_refl. Qed.

(** X6: [crc16] gives a 16-bit number whatever register it starts
    from, and calls chain: the sum of [q] from the sum of [p] is the
    CRC of the 128 bits of [p] followed by [q]. *)
Theorem crc16_chain (iv p q : Z) :
  0 <= crc16 iv p < 2 ^ 16 /\
  crc16 (crc16 iv p) q
  = crc16_ccitt iv (bits_msb_first 64 p ++ bits_msb_first 64 q).
Proof.
  split.
  - unfold crc16. rewrite crc16_outer_S. change (2 ^ 16) with 65536.
    apply crc16_outer_range. rewrite crc16_inner_S.
    apply crc16_inner_range, crc16_step_range.
  - by rewrite !crc16_spec, crc16_ccitt_app.
Qed.

(** X7: [flow_hash] leaves the hash it returns in the cache, even when
    that is 0; a second call returns the same hash and changes nothing
    more; key, family, time stamp and context are never written. *)
Theorem flow_hash_idempotent (bo : byte_order) (f : GInetFlow) :
  hash (flow_hash bo f).2 = (flow_hash bo f).1 /\
  flow_hash bo (flow_hash bo f).2 = flow_hash bo f /\
  tuple (flow_hash bo f).2 = tuple f /\
  family (flow_hash bo f).2 = family f /\
  timestamp (flow_hash bo f).2 = timestamp f /\
  context (flow_hash bo f).2 = context f.
Proof.
  destruct (Z.eq_dec (hash f) 0) as [Hz|Hz].
  - rewrite (flow_hash_computed bo f Hz). cbn [fst snd hash set_hash tuple family
      timestamp context].
    split; [done|]. split; [|done].
    destruct (Z.eq_dec (tuple_hash_spec bo (tuple f)) 0) as [Hs|Hs].
    + rewrite Hs, <- Hz, set_hash_same. rewrite (flow_hash_computed bo f Hz), Hs, <- Hz.
      by rewrite set_hash_same.
    + by rewrite flow_hash_cached.
  - rewrite (flow_hash_cached bo f Hz). cbn [fst snd].
    by rewrite (flow_hash_cached bo f Hz).
Qed.

(** X8: the computed hash does not tell the two sides of a flow apart:
    a key and the key with lower and upper side changed over hash
    alike.  When the two sides are the same address and port, their
    CRCs cancel and the hash is the CRC of the protocol alone. *)
Theorem flow_hash_sides (bo : byte_order) (f g : GInetFlow) :
  hash f = 0 -> hash g = 0 ->
  (tuple g = swap_sides (tuple f) -> (flow_hash bo g).1 = (flow_hash bo f).1) /\
  (lower_ip (tuple f) = upper_ip (tuple f) ->
   lower_port (tuple f) = upper_port (tuple f) ->
   (flow_hash bo f).1 = crc16 0xffff (u64 (Z.shiftl (protocol (tuple f)) 56))).
Proof.
  intros Hf Hg. rewrite (flow_hash_computed bo f Hf), (flow_hash_computed bo g Hg).
  cbn [fst]. unfold tuple_hash_spec. split.
  - intros ->. cbn [swap_sides protocol lower_port upper_port lower_ip upper_ip].
    f_equal. apply Z.lxor_comm.
  - intros -> ->. rewrite Z.lxor_nilpotent, Z.lxor_0_l.
    by rewrite crc16_spec, (bits_shifted 8 56).
Qed.

Lemma flow_hash_sides_witness :
  match flow_parse flow_zero frame_self 54 0 with
  | Done (true, packet) =>
      hash packet = 0 /\
      lower_ip (tuple packet) = upper_ip (tuple packet) /\
      lower_port (tuple packet) = upper_port (tuple packet) /\
      (flow_hash G_LITTLE_ENDIAN packet).1 = crc16 0xffff (u64 (Z.shiftl 6 56))
  | _ => False
  end.
Proof.
  vm_compute flow_parse.
  split; [reflexivity|]. split; [reflexivity|]. split; [reflexivity|].
  match goal with |- (flow_hash _ ?p).1 = _ =>
    exact (proj2 (flow_hash_sides G_LITTLE_ENDIAN p p eq_refl eq_refl) eq_refl eq_refl)
  end.
Defined.

(** ** The table *)

Lemma flow_hash_result (bo : byte_order) (f : GInetFlow) :
  (flow_hash bo f).2 = set_hash f (flow_hash bo f).1.
Proof.
  destruct (Z.eq_dec (hash f) 0) as [Hz|Hz].
  - by rewrite (flow_hash_computed bo f Hz).
  - rewrite (flow_hash_cached bo f Hz). cbn [fst snd]. by rewrite set_hash_same.
Qed.

Lemma new_flow_fields (bo : byte_order) (packet : GInetFlow) :
  new_flow bo packet = Flow 0 (family packet) (flow_hash bo packet).1 (tuple packet) 0.
Proof. unfold new_flow. rewrite flow_hash_result. by destruct packet. Qed.

(** What a call that returns does, case by case. *)
Lemma get_full_effect (bo : byte_order) now heap t frame len h ts r heap' t' :
  table_ok heap t ->
  g_inet_flow_get_full bo now heap t frame len h ts = Done (r, heap', t') ->
  let stamp := if ts =? 0 then now else ts in
  (rejects frame len h /\ r = None /\ heap' = heap /\ t' = t)
  \/ (exists packet n f,
        flow_parse flow_zero frame len h = Done (true, packet) /\
        n ∈ table t /\ heap !! node_key n = Some f /\ tuple f = tuple packet /\
        node_hash n = real_hash (flow_hash bo packet).1 /\
        r = Some (node_key n) /\
        heap' = <[node_key n := set_timestamp f stamp]> heap /\
        t' = Table (table t) (node_key n :: g_list_remove (list_ t) (node_key n))
                   (u64 (hits t + 1)) (misses t))
  \/ (exists packet,
        flow_parse flow_zero frame len h = Done (true, packet) /\
        ~ key_stored bo heap t packet /\
        r = Some (length heap) /\
        heap' = heap ++ [Flow stamp (family packet) (flow_hash bo packet).1 (tuple packet) 0] /\
        t' = Table (Node (real_hash (flow_hash bo packet).1) (length heap) (length heap)
                      :: table t)
                   (length heap :: list_ t) (hits t) (u64 (misses t + 1))).
Proof.
  intros Hok Hget stamp.
  destruct (flow_parse_flag frame len h) as [Hp|[[f0 Hp]|[packet Hp]]].
  - by rewrite get_full_undefined in Hget.
  - rewrite (get_full_fail bo now heap t frame len h ts f0 Hp) in Hget.
    injection Hget as <- <- <-. left. split; [by exists f0|done].
  - right.
    destruct (get_full_step bo now heap t frame len h ts packet Hok Hp)
      as [(n & f & Hin & Hm & Hf & Heq)|[Hnone Heq]];
      rewrite Heq in Hget; injection Hget as <- <- <-.
    + left. exists packet, n, f.
      apply node_matches_true in Hm as [Hhash (f' & Hf' & Ht)].
      assert (f' = f) as -> by congruence. done.
    + right. exists packet. split; [done|]. split.
      * intros (n & f & Hin & Hf & Ht & Hhash).
        rewrite Forall_forall in Hnone. specialize (Hnone n Hin).
        assert (node_matches heap (real_hash (flow_hash bo packet).1) packet n = true)
          by (apply node_matches_true; eauto).
        congruence.
      * split; [done|]. split; [|done]. by rewrite new_flow_fields.
Qed.

(** X9: a call that returns a record writes the time stamp of that
    record, the [timestamp] handed in or, when that is 0, the clock,
    and nothing else in it when the record was there before; every
    other record is left exactly as it was. *)
Theorem call_touches_one_record (bo : byte_order) (now : Z) (heap : list GInetFlow)
    (t : GInetFlowTable) (frame : list byte) (len h ts : Z) (r : nat)
    (heap' : list GInetFlow) (t' : GInetFlowTable) :
  table_ok heap t ->
  g_inet_flow_get_full bo now heap t frame len h ts = Done (Some r, heap', t') ->
  (exists f', heap' !! r = Some f' /\ timestamp f' = (if ts =? 0 then now else ts)) /\
  (forall f, heap !! r = Some f ->
     heap' !! r = Some (set_timestamp f (if ts =? 0 then now else ts))) /\
  (forall p, p <> r -> heap' !! p = heap !! p).
Proof.
  intros Hok Hget.
  destruct (get_full_effect bo now heap t frame len h ts (Some r) heap' t' Hok Hget)
    as [(_ & ? & _)|[(packet & n & f & _ & _ & Hf & _ & _ & [= ->] & -> & _)
                    |(packet & _ & _ & [= ->] & -> & _)]]; [done| |].
  - assert (node_key n < length heap)%nat by (by eapply lookup_lt_Some).
    split; [|split].
    + eexists. split; [by apply list_lookup_insert_eq|done].
    + intros f0 Hf0. assert (f0 = f) as -> by congruence. by apply list_lookup_insert_eq.
    + intros p Hp. by apply list_lookup_insert_ne.
  - split; [|split].
    + eexists. split; [apply lookup_app_last|done].
    + intros f Hf. apply lookup_lt_Some in Hf. lia.
    + intros p Hp. destruct (decide (p < length heap)%nat).
      * by rewrite lookup_app_l.
      * rewrite !lookup_ge_None_2; [done|lia|]. rewrite length_app. simpl. lia.
Qed.

Lemma call_touches_one_record_witness :
  table_ok (state_after G_LITTLE_ENDIAN calls_ABC).1 (state_after G_LITTLE_ENDIAN calls_ABC).2 /\
  exists heap' t',
    g_inet_flow_get_full G_LITTLE_ENDIAN 9 (state_after G_LITTLE_ENDIAN calls_ABC).1
      (state_after G_LITTLE_ENDIAN calls_ABC).2 frame_B 54 0 77 = Done (Some 1%nat, heap', t') /\
    (exists f', heap' !! 1%nat = Some f' /\ timestamp f' = 77) /\
    (forall p, p <> 1%nat -> heap' !! p = (state_after G_LITTLE_ENDIAN calls_ABC).1 !! p).
Proof.
  assert (run G_LITTLE_ENDIAN ([], g_inet_flow_table_new) calls_ABC
          = Done (results_of G_LITTLE_ENDIAN calls_ABC, state_after G_LITTLE_ENDIAN calls_ABC))
    as Hrun by (vm_compute; reflexivity).
  pose proof (run_ok G_LITTLE_ENDIAN calls_ABC ([], g_inet_flow_table_new) _ _
                table_ok_new Hrun) as Hok.
  split; [exact Hok|].
  destruct (g_inet_flow_get_full G_LITTLE_ENDIAN 9 (state_after G_LITTLE_ENDIAN calls_ABC).1
      (state_after G_LITTLE_ENDIAN calls_ABC).2 frame_B 54 0 77) as [[[r heap'] t']|] eqn:Hget;
    [|vm_compute in Hget; discriminate Hget].
  assert (r = Some 1%nat) as -> by (vm_compute in Hget; by injection Hget as <- _ _).
  exists heap', t'. split; [reflexivity|].
  destruct (call_touches_one_record G_LITTLE_ENDIAN 9 _ _ frame_B 54 0 77 1 heap' t' Hok Hget)
    as (H1 & _ & H3).
  split; [exact H1|exact H3].
Defined.

(** X10: when the table holds no record that answers the frame, the
    call makes one at the next address: family IPv4, the key of the
    frame, a null context, the time stamp of the call, and as its hash
    the hash handed in or, when that is 0, the computed one; the record
    goes in front of the entries and of the recency list, and only
    [misses] is counted up. *)
Theorem miss_stores_packet (bo : byte_order) (now : Z) (heap : list GInetFlow)
    (t : GInetFlowTable) (frame : list byte) (len h ts : Z) (packet : GInetFlow) :
  table_ok heap t ->
  flow_parse flow_zero frame len h = Done (true, packet) ->
  ~ key_stored bo heap t packet ->
  g_inet_flow_get_full bo now heap t frame len h ts
  = Done (Some (length heap),
          heap ++ [Flow (if ts =? 0 then now else ts) G_SOCKET_FAMILY_IPV4
                        (if h =? 0 then tuple_hash_spec bo (tuple packet) else h)
                        (tuple packet) 0],
          Table (Node (real_hash (if h =? 0 then tuple_hash_spec bo (tuple packet) else h))
                      (length heap) (length heap) :: table t)
                (length heap :: list_ t) (hits t) (u64 (misses t + 1))).
Proof.
  intros Hok Hp Hnot.
  destruct (flow_parse_hash frame len h packet Hp) as (Hh & Hfam & _).
  assert ((flow_hash bo packet).1 = if h =? 0 then tuple_hash_spec bo (tuple packet) else h)
    as Hhash.
  { destruct (Z.eqb_spec h 0) as [->|Hne].
    - by rewrite (flow_hash_computed bo packet Hh).
    - rewrite flow_hash_cached by congruence. done. }
  destruct (get_full_step bo now heap t frame len h ts packet Hok Hp)
    as [(n & f & Hin & Hm & Hf & Heq)|[Hnone Heq]].
  - exfalso. apply Hnot. apply node_matches_true in Hm as [Hnh (f' & Hf' & Ht)].
    exists n, f'. done.
  - by rewrite Heq, new_flow_fields, Hhash, Hfam.
Qed.

Lemma miss_stores_packet_witness :
  table_ok [] g_inet_flow_table_new /\
  flow_parse flow_zero frame_A 54 5 = Done (true, set_hash packet_A 5) /\
  ~ key_stored G_LITTLE_ENDIAN [] g_inet_flow_table_new (set_hash packet_A 5) /\
  g_inet_flow_get_full G_LITTLE_ENDIAN 1 [] g_inet_flow_table_new frame_A 54 5 0
  = Done (Some 0%nat, [Flow 1 G_SOCKET_FAMILY_IPV4 5 (tuple packet_A) 0],
          Table [Node 5 0 0] [0%nat] 0 1).
Proof.
  assert (~ key_stored G_LITTLE_ENDIAN [] g_inet_flow_table_new (set_hash packet_A 5)) as Hn.
  { intros (n & f & Hin & _). by apply elem_of_nil in Hin. }
  split; [exact table_ok_new|]. split; [reflexivity|]. split; [exact Hn|].
  exact (miss_stores_packet G_LITTLE_ENDIAN 1 [] g_inet_flow_table_new frame_A 54 5 0
           (set_hash packet_A 5) table_ok_new eq_refl Hn).
Defined.

(** ** Runs of calls *)

Lemma run_records (bo : byte_order) (cs : list call) : forall s rs s',
  table_ok s.1 s.2 -> run bo s cs = Done (rs, s') ->
  forall p f, s.1 !! p = Some f ->
    exists f', s'.1 !! p = Some f' /\ tuple f' = tuple f /\ hash f' = hash f /\
               family f' = family f.
Proof.
  induction cs as [|c cs IH]; intros s rs s' Hok Hrun p f Hf.
  - injection Hrun as <- <-. by exists f.
  - apply (run_cons_inv bo) in Hrun as (r & s1 & rs1 & -> & Hc & Hrun).
    apply do_call_inv in Hc. destruct s as [heap t], s1 as [heap1 t1]. cbn [fst snd] in *.
    destruct (get_full_records bo _ _ _ _ _ _ _ _ _ _ Hok Hc p f Hf)
      as (f1 & Hf1 & Ht1 & Hh1 & Hfam1).
    pose proof (get_full_ok bo _ _ _ _ _ _ _ _ _ _ Hok Hc) as Hok1.
    destruct (IH (heap1, t1) rs1 s' Hok1 Hrun p f1 Hf1) as (f' & Hf' & Ht & Hh & Hfam).
    exists f'. split; [done|]. split; [congruence|]. split; congruence.
Qed.

(** A property of store and table that every call keeps holds after a
    run. *)
Lemma run_invariant (bo : byte_order) (Q : call -> Prop)
    (P : list GInetFlow -> GInetFlowTable -> Prop) :
  (forall c heap t r heap' t',
     Q c -> table_ok heap t -> P heap t ->
     g_inet_flow_get_full bo (call_now c) heap t (call_frame c) (call_length c)
       (call_hash c) (call_timestamp c) = Done (r, heap', t') ->
     P heap' t') ->
  forall cs s rs s',
    Forall Q cs -> table_ok s.1 s.2 -> P s.1 s.2 -> run bo s cs = Done (rs, s') ->
    P s'.1 s'.2.
Proof.
  intros Hstep cs. induction cs as [|c cs IH]; intros s rs s' HQ Hok HP Hrun.
  - by injection Hrun as <- <-.
  - apply Forall_cons in HQ as [Hc HQ].
    apply (run_cons_inv bo) in Hrun as (r & s1 & rs1 & -> & Hcall & Hrun).
    apply do_call_inv in Hcall. destruct s as [heap t], s1 as [heap1 t1]. cbn [fst snd] in *.
    apply (IH (heap1, t1) rs1 s'); [done| | |done].
    + by eapply get_full_ok.
    + by eapply Hstep.
Qed.

(** X11: the record of a flow stays the record of that flow.  Once a
    call has returned a record, a later call with the same frame,
    length and hash returns the same record, as a hit, whatever calls
    came in between; and the record still has the key, the hash and
    the family it had. *)
Theorem flow_identity_stable (bo : byte_order) (now now' : Z) (heap : list GInetFlow)
    (t : GInetFlowTable) (frame : list byte) (len h ts ts' : Z) (p : nat)
    (heap1 : list GInetFlow) (t1 : GInetFlowTable) (cs : list call)
    (rs : list (option nat)) (heap2 : list GInetFlow) (t2 : GInetFlowTable) :
  table_ok heap t ->
  g_inet_flow_get_full bo now heap t frame len h ts = Done (Some p, heap1, t1) ->
  run bo (heap1, t1) cs = Done (rs, (heap2, t2)) ->
  (exists heap3,
     g_inet_flow_get_full bo now' heap2 t2 frame len h ts'
     = Done (Some p, heap3,
             Table (table t2) (p :: g_list_remove (list_ t2) p)
                   (u64 (hits t2 + 1)) (misses t2))) /\
  (forall f1, heap1 !! p = Some f1 ->
     exists f2, heap2 !! p = Some f2 /\ tuple f2 = tuple f1 /\ hash f2 = hash f1 /\
                family f2 = family f1).
Proof.
  intros Hok Hget Hrun.
  pose proof (get_full_ok bo _ _ _ _ _ _ _ _ _ _ Hok Hget) as Hok1.
  pose proof (run_ok bo cs (heap1, t1) rs (heap2, t2) Hok1 Hrun) as Hok2.
  split.
  - destruct (flow_parse_flag frame len h) as [Hp|[[f0 Hp]|[packet Hp]]].
    + by rewrite get_full_undefined in Hget.
    + by rewrite (get_full_fail bo now heap t frame len h ts f0 Hp) in Hget.
    + destruct (get_full_stored bo _ _ _ _ _ _ _ packet _ _ _ Hok Hp Hget)
        as (n & Hin & [= ->] & Hm).
      destruct (run_keeps bo cs (heap1, t1) rs (heap2, t2) _ packet n Hok1 Hrun Hin Hm)
        as [Hin2 Hm2].
      destruct (get_full_hit bo now' heap2 t2 frame len h ts' packet n Hok2 Hp Hin2 Hm2)
        as (f & _ & _ & Heq).
      eauto.
  - intros f1 Hf1. exact (run_records bo cs (heap1, t1) rs (heap2, t2) Hok1 Hrun p f1 Hf1).
Qed.

Lemma flow_identity_stable_witness :
  table_ok [] g_inet_flow_table_new /\
  exists heap1 t1 rs heap2 t2 heap3 t3,
    g_inet_flow_get_full G_LITTLE_ENDIAN 1 [] g_inet_flow_table_new frame_A 54 0 0
    = Done (Some 0%nat, heap1, t1) /\
    run G_LITTLE_ENDIAN (heap1, t1) [observe frame_B 2; observe frame_udp 3; observe frame_C 4]
    = Done (rs, (heap2, t2)) /\
    g_inet_flow_get_full G_LITTLE_ENDIAN 5 heap2 t2 frame_A 54 0 0
    = Done (Some 0%nat, heap3, t3).
Proof.
  split; [exact table_ok_new|].
  destruct (g_inet_flow_get_full G_LITTLE_ENDIAN 1 [] g_inet_flow_table_new frame_A 54 0 0)
    as [[[r heap1] t1]|] eqn:Hget; [|vm_compute in Hget; discriminate Hget].
  assert (r = Some 0%nat) as -> by (vm_compute in Hget; by injection Hget as <- _ _).
  destruct (run G_LITTLE_ENDIAN (heap1, t1)
              [observe frame_B 2; observe frame_udp 3; observe frame_C 4])
    as [[rs [heap2 t2]]|] eqn:Hrun.
  2: { vm_compute in Hget. injection Hget as <- <-. vm_compute in Hrun. discriminate Hrun. }
  destruct (flow_identity_stable G_LITTLE_ENDIAN 1 5 [] g_inet_flow_table_new frame_A 54 0 0 0
              0%nat heap1 t1 _ rs heap2 t2 table_ok_new Hget Hrun) as [[heap3 H3] _].
  eauto 10.
Defined.

(** X12: over a run on a new table every call that returns a record
    is counted once, as a hit or as a miss, and a call that returns
    [NULL] is not counted: [hits + misses] is the number of records
    returned, and [misses] is the number of records in the store.
    (The counters being 64-bit numbers, for runs below [2^64] calls.) *)
Theorem hits_plus_misses (bo : byte_order) (cs : list call) (rs : list (option nat))
    (heap : list GInetFlow) (t : GInetFlowTable) :
  run bo ([], g_inet_flow_table_new) cs = Done (rs, (heap, t)) ->
  Z.of_nat (length cs) < 2 ^ 64 ->
  length rs = length cs /\
  hits t + misses t = Z.of_nat (returned rs) /\
  misses t = Z.of_nat (length heap) /\
  0 <= hits t.
Proof.
  intros Hrun Hlen.
  assert (forall cs s rs s',
            table_ok s.1 s.2 -> run bo s cs = Done (rs, s') ->
            0 <= misses s.2 ->
            hits s.2 + misses s.2 + Z.of_nat (length cs) < 2 ^ 64 ->
            length rs = length cs /\
            hits s'.2 + misses s'.2 = hits s.2 + misses s.2 + Z.of_nat (returned rs) /\
            misses s'.2 - Z.of_nat (length s'.1) = misses s.2 - Z.of_nat (length s.1) /\
            0 <= misses s'.2) as Hgen.
  { clear. intros cs. induction cs as [|c cs IH]; intros s rs s' Hok Hrun Hm Hb.
    - injection Hrun as <- <-. cbn. lia.
    - apply (run_cons_inv bo) in Hrun as (r & s1 & rs1 & -> & Hc & Hrun).
      apply do_call_inv in Hc. destruct s as [heap t], s1 as [heap1 t1]. cbn [fst snd] in *.
      pose proof (get_full_ok bo _ _ _ _ _ _ _ _ _ _ Hok Hc) as Hok1.
      pose proof (ok_hits _ _ Hok) as Hh.
      cbn [length] in Hb.
      destruct (get_full_cases bo _ _ _ _ _ _ _ _ _ _ Hok Hc)
        as [(-> & -> & -> & _)|[(p & -> & _ & _ & Hl & _ & _ & Hhits & Hmiss)
                                |(hv & -> & Hl & _ & _ & Hhits & Hmiss)]].
      + destruct (IH (heap, t) rs1 s' Hok1 Hrun) as (H1 & H2 & H3 & H4); [done|cbn; lia|].
        cbn [fst snd] in *. unfold returned in *.
        rewrite filter_cons_False by (by intros [? ?]). cbn [length]. lia.
      + assert (hits t1 = hits t + 1) as Hh1
          by (rewrite Hhits; unfold u64; apply Z.mod_small; lia).
        destruct (IH (heap1, t1) rs1 s' Hok1 Hrun) as (H1 & H2 & H3 & H4);
          [cbn; lia|cbn; lia|].
        cbn [fst snd] in *. unfold returned in *.
        rewrite filter_cons_True by (by eexists). cbn [length]. lia.
      + assert (misses t1 = misses t + 1) as Hm1
          by (rewrite Hmiss; unfold u64; apply Z.mod_small; lia).
        destruct (IH (heap1, t1) rs1 s' Hok1 Hrun) as (H1 & H2 & H3 & H4);
          [cbn; lia|cbn; lia|].
        cbn [fst snd] in *. unfold returned in *.
        rewrite filter_cons_True by (by eexists). cbn [length]. lia. }
  destruct (Hgen cs ([], g_inet_flow_table_new) rs (heap, t) table_ok_new Hrun)
    as (H1 & H2 & H3 & H4); [cbn; lia|cbn; lia|].
  pose proof (run_ok bo cs ([], g_inet_flow_table_new) rs (heap, t) table_ok_new Hrun) as Hok.
  pose proof (ok_hits _ _ Hok).
  cbn [fst snd hits misses g_inet_flow_table_new length] in *. lia.
Qed.

Lemma hits_plus_misses_witness :
  exists rs heap t,
    run G_LITTLE_ENDIAN ([], g_inet_flow_table_new)
      [observe frame_A 1; observe frame_udp 2; observe frame_B 3; observe frame_A 4]
    = Done (rs, (heap, t)) /\
    rs = [Some 0; None; Some 1; Some 0]%nat /\
    hits t + misses t = Z.of_nat (returned rs) /\ hits t = 1 /\ misses t = 2.
Proof.
  destruct (run G_LITTLE_ENDIAN ([], g_inet_flow_table_new)
      [observe frame_A 1; observe frame_udp 2; observe frame_B 3; observe frame_A 4])
    as [[rs [heap t]]|] eqn:Hrun; [|vm_compute in Hrun; discriminate Hrun].
  exists rs, heap, t. split; [reflexivity|].
  destruct (hits_plus_misses G_LITTLE_ENDIAN _ rs heap t Hrun eq_refl) as (_ & H2 & _).
  vm_compute in Hrun. injection Hrun as <- <- <-.
  split; [reflexivity|]. split; [exact H2|]. split; reflexivity.
Defined.

Lemma fold_left_note (l acc : list nat) :
  fold_left (fun s flow => note_flow flow s) l acc = acc ++ l.
Proof.
  revert acc. induction l as [|x l IH]; intros acc; cbn [fold_left].
  - by rewrite app_nil_r.
  - rewrite IH. unfold note_flow. by rewrite <- app_assoc.
Qed.

(** The entries of the hash table are the records of the store, each
    once. *)
Lemma run_keys (bo : byte_order) (cs : list call) rs heap t :
  run bo ([], g_inet_flow_table_new) cs = Done (rs, (heap, t)) ->
  node_key <$> table t ≡ₚ seq 0 (length heap).
Proof.
  intros Hrun.
  refine (run_invariant bo (fun _ => True)
           (fun heap t => node_key <$> table t ≡ₚ seq 0 (length heap))
           _ cs ([], g_inet_flow_table_new) rs (heap, t) _ table_ok_new _ Hrun);
    [|by apply Forall_true|done].
  clear. intros c heap t r heap' t' _ Hok HP Hget.
  destruct (get_full_effect bo _ _ _ _ _ _ _ _ _ _ Hok Hget)
    as [(_ & _ & -> & ->)|[(packet & n & f & _ & _ & _ & _ & _ & _ & -> & ->)
                          |(packet & _ & _ & _ & -> & ->)]].
  - done.
  - cbn [table]. by rewrite length_insert.
  - cbn [table]. rewrite fmap_cons, length_app. cbn [node_key length].
    rewrite seq_app, HP. cbn [seq Nat.add]. apply Permutation_cons_append.
Qed.

(** X13: in a table built by calls, [g_inet_flow_foreach] calls the
    visitor on every record of the store exactly once, in the order of
    the recency list; these are the keys and the values of the hash
    table. *)
Theorem foreach_visits_each_record (bo : byte_order) (cs : list call)
    (rs : list (option nat)) (heap : list GInetFlow) (t : GInetFlowTable) :
  run bo ([], g_inet_flow_table_new) cs = Done (rs, (heap, t)) ->
  g_inet_flow_foreach t note_flow [] = list_ t /\
  NoDup (g_inet_flow_foreach t note_flow []) /\
  g_inet_flow_foreach t note_flow [] ≡ₚ seq 0 (length heap) /\
  g_inet_flow_foreach t note_flow [] ≡ₚ node_value <$> table t /\
  length (g_inet_flow_foreach t note_flow []) = length (table t).
Proof.
  intros Hrun.
  pose proof (run_ok bo cs ([], g_inet_flow_table_new) rs (heap, t) table_ok_new Hrun) as Hok.
  pose proof (run_keys bo cs rs heap t Hrun) as Hkeys.
  cbn [fst snd] in Hok.
  assert (g_inet_flow_foreach t note_flow [] = list_ t) as ->
    by (unfold g_inet_flow_foreach; apply fold_left_note).
  pose proof (ok_list _ _ Hok) as Hlist.
  assert (node_value <$> table t = node_key <$> table t) as Hval.
  { pose proof (ok_nodes _ _ Hok) as Hnodes. clear -Hnodes.
    induction Hnodes as [|n l [_ Hn] Hl IH]; [done|]. rewrite !fmap_cons. by rewrite Hn, IH. }
  split; [done|]. split; [rewrite Hlist; apply (ok_nodup _ _ Hok)|].
  split; [by rewrite Hlist|]. split; [by rewrite Hval|].
  by rewrite Hlist, length_fmap.
Qed.

Lemma foreach_visits_each_record_witness :
  run G_LITTLE_ENDIAN ([], g_inet_flow_table_new) calls_ABA
  = Done (results_of G_LITTLE_ENDIAN calls_ABA, state_after G_LITTLE_ENDIAN calls_ABA) /\
  g_inet_flow_foreach (state_after G_LITTLE_ENDIAN calls_ABA).2 note_flow [] = [0; 1]%nat /\
  NoDup (g_inet_flow_foreach (state_after G_LITTLE_ENDIAN calls_ABA).2 note_flow []).
Proof.
  assert (run G_LITTLE_ENDIAN ([], g_inet_flow_table_new) calls_ABA
          = Done (results_of G_LITTLE_ENDIAN calls_ABA,
                  ((state_after G_LITTLE_ENDIAN calls_ABA).1,
                   (state_after G_LITTLE_ENDIAN calls_ABA).2)))
    as Hrun by (vm_compute; reflexivity).
  split; [vm_compute; reflexivity|]. split; [vm_compute; reflexivity|].
  exact (proj1 (proj2 (foreach_visits_each_record G_LITTLE_ENDIAN calls_ABA _ _ _ Hrun))).
Defined.

(** With calls that hand in no hash, every entry is stored under the
    computed hash of its key. *)
Lemma run_plain_hashes (bo : byte_order) (cs : list call) rs heap t :
  Forall (fun c => call_hash c = 0) cs ->
  run bo ([], g_inet_flow_table_new) cs = Done (rs, (heap, t)) ->
  forall n f, n ∈ table t -> heap !! node_key n = Some f ->
    node_hash n = real_hash (tuple_hash_spec bo (tuple f)).
Proof.
  intros Hplain Hrun.
  refine (run_invariant bo (fun c => call_hash c = 0)
           (fun heap t => forall n f, n ∈ table t -> heap !! node_key n = Some f ->
              node_hash n = real_hash (tuple_hash_spec bo (tuple f)))
           _ cs ([], g_inet_flow_table_new) rs (heap, t) Hplain table_ok_new _ Hrun);
    [|by intros n f Hin%elem_of_nil].
  clear. intros c heap t r heap' t' Hc Hok HP Hget n0 f0 Hin0 Hf0.
  destruct (get_full_effect bo _ _ _ _ _ _ _ _ _ _ Hok Hget)
    as [(_ & _ & -> & ->)|[(packet & n & f & _ & Hin & Hf & _ & _ & _ & -> & ->)
                          |(packet & Hp & _ & _ & -> & ->)]].
  - by apply HP.
  - cbn [table] in Hin0. destruct (decide (node_key n0 = node_key n)) as [Heq|Hne].
    + rewrite Heq, list_lookup_insert_eq in Hf0 by (by eapply lookup_lt_Some).
      injection Hf0 as <-. cbn [tuple set_timestamp]. apply HP; [done|]. by rewrite Heq.
    + rewrite list_lookup_insert_ne in Hf0 by done. by apply HP.
  - cbn [table] in Hin0. apply elem_of_cons in Hin0 as [->|Hin0].
    + cbn [node_key node_hash] in *. rewrite lookup_app_last in Hf0. injection Hf0 as <-.
      cbn [tuple]. destruct (flow_parse_hash _ _ _ _ Hp) as (Hh & _).
      rewrite Hc in Hh. by rewrite (flow_hash_computed bo packet Hh).
    + apply HP; [done|]. rewrite lookup_app_l in Hf0; [done|].
      pose proof (ok_nodes _ _ Hok) as Hnodes. rewrite Forall_forall in Hnodes.
      by apply Hnodes.
Qed.

(** X14: while every call leaves the hash to the table
    ([g_inet_flow_get], hash 0), the table holds one record for a key:
    two records of the store with equal keys are the same record. *)
Theorem one_record_per_key (bo : byte_order) (cs : list call) (rs : list (option nat))
    (heap : list GInetFlow) (t : GInetFlowTable) :
  Forall (fun c => call_hash c = 0) cs ->
  run bo ([], g_inet_flow_table_new) cs = Done (rs, (heap, t)) ->
  forall p q f g,
    heap !! p = Some f -> heap !! q = Some g -> tuple f = tuple g -> p = q.
Proof.
  intros Hplain Hrun p q f g Hf Hg Ht.
  pose proof (run_ok bo cs ([], g_inet_flow_table_new) rs (heap, t) table_ok_new Hrun) as Hok.
  pose proof (run_keys bo cs rs heap t Hrun) as Hkeys.
  pose proof (run_plain_hashes bo cs rs heap t Hplain Hrun) as Hhash.
  cbn [fst snd] in Hok.
  assert (forall x, (x < length heap)%nat ->
            exists i n, table t !! i = Some n /\ node_key n = x) as Hentry.
  { intros x Hx. assert (x ∈ node_key <$> table t) as Hin
      by (rewrite Hkeys; apply elem_of_seq; lia).
    apply list_elem_of_fmap in Hin as (n & -> & Hin).
    apply list_elem_of_lookup_1 in Hin as [i Hi]. eauto. }
  destruct (Hentry p (lookup_lt_Some _ _ _ Hf)) as (i & n & Hi & <-).
  destruct (Hentry q (lookup_lt_Some _ _ _ Hg)) as (j & m & Hj & <-).
  destruct (decide (i = j)) as [->|Hij]; [congruence|]. exfalso.
  apply (ok_unique _ _ Hok i j n m f g Hi Hj Hij Hf Hg); [|done].
  rewrite (Hhash n f), (Hhash m g), Ht; [done| |done| |done];
    by eapply list_elem_of_lookup_2.
Qed.

Lemma one_record_per_key_witness :
  Forall (fun c => call_hash c = 0) calls_ABA /\
  run G_LITTLE_ENDIAN ([], g_inet_flow_table_new) calls_ABA
  = Done (results_of G_LITTLE_ENDIAN calls_ABA, state_after G_LITTLE_ENDIAN calls_ABA) /\
  forall p q f g,
    (state_after G_LITTLE_ENDIAN calls_ABA).1 !! p = Some f ->
    (state_after G_LITTLE_ENDIAN calls_ABA).1 !! q = Some g -> tuple f = tuple g -> p = q.
Proof.
  assert (Forall (fun c => call_hash c = 0) calls_ABA) as Hplain by (repeat constructor).
  assert (run G_LITTLE_ENDIAN ([], g_inet_flow_table_new) calls_ABA
          = Done (results_of G_LITTLE_ENDIAN calls_ABA,
                  ((state_after G_LITTLE_ENDIAN calls_ABA).1,
                   (state_after G_LITTLE_ENDIAN calls_ABA).2)))
    as Hrun by (vm_compute; reflexivity).
  split; [exact Hplain|]. split; [vm_compute; reflexivity|].
  exact (one_record_per_key G_LITTLE_ENDIAN calls_ABA _ _ _ Hplain Hrun).
Defined.

(** ** The properties of the flows of a table *)

Lemma run_families (bo : byte_order) (cs : list call) rs heap t :
  run bo ([], g_inet_flow_table_new) cs = Done (rs, (heap, t)) ->
  forall p f, heap !! p = Some f -> family f = G_SOCKET_FAMILY_IPV4.
Proof.
  intros Hrun.
  refine (run_invariant bo (fun _ => True)
            (fun heap t => forall p f, heap !! p = Some f -> family f = G_SOCKET_FAMILY_IPV4)
            _ cs ([], g_inet_flow_table_new) rs (heap, t) _ table_ok_new _ Hrun);
    [|by apply Forall_true|done].
  clear. intros c heap t r heap' t' _ Hok HP Hget p f0 Hf0.
  destruct (get_full_effect bo _ _ _ _ _ _ _ _ _ _ Hok Hget)
    as [(_ & _ & -> & ->)|[(packet & n & f & _ & Hin & Hf & _ & _ & _ & -> & ->)
                          |(packet & Hp & _ & _ & -> & ->)]].
  - by eapply HP.
  - destruct (decide (p = node_key n)) as [->|Hne].
    + rewrite list_lookup_insert_eq in Hf0 by (by eapply lookup_lt_Some).
      injection Hf0 as <-. cbn [family set_timestamp]. by eapply HP.
    + rewrite list_lookup_insert_ne in Hf0 by done. by eapply HP.
  - destruct (decide (p < length heap)%nat) as [Hlt|Hge].
    + rewrite lookup_app_l in Hf0 by done. by eapply HP.
    + assert (p = length heap) as ->.
      { apply lookup_lt_Some in Hf0. rewrite length_app in Hf0. simpl in Hf0. lia. }
      rewrite lookup_app_last in Hf0. injection Hf0 as <-. cbn [family].
      by destruct (flow_parse_hash _ _ _ _ Hp) as (_ & ? & _).
Qed.

Lemma get_property_lip (f : GInetFlow) (w w1 w2 w3 : raw32) :
  family f = G_SOCKET_FAMILY_IPV4 -> lower_ip (tuple f) = (w, w1, w2, w3) ->
  g_inet_flow_get_property f FLOW_LIP = Some (GString (Some (dotted w))).
Proof.
  destruct f as [ts fam hh [pr lp up li ui] ctx]. cbn [family tuple lower_ip].
  intros -> ->. destruct w as [[[a b] c] d], w1 as [[[? ?] ?] ?]. reflexivity.
Qed.

(** X15: the properties of the record a call returns, in a table built
    by calls, tell the frame of the call: the protocol is 6, the lower
    port the smaller and the upper port the larger of its two ports,
    and the lower address is the text, in dotted decimals, of the one
    of its two addresses that is the smaller number.  An id that is
    none of the six gives no value. *)
Theorem properties_of_returned_flow (bo : byte_order) (cs : list call)
    (rs : list (option nat)) (heap : list GInetFlow) (t : GInetFlowTable)
    (now : Z) (frame : list byte) (len h ts : Z) (r : nat)
    (heap' : list GInetFlow) (t' : GInetFlowTable) :
  run bo ([], g_inet_flow_table_new) cs = Done (rs, (heap, t)) ->
  g_inet_flow_get_full bo now heap t frame len h ts = Done (Some r, heap', t') ->
  exists flow saddr daddr sport dport,
    heap' !! r = Some flow /\
    load32_raw frame 26 = Done saddr /\ load32_raw frame 30 = Done daddr /\
    load16_be frame 34 = Done sport /\ load16_be frame 36 = Done dport /\
    g_inet_flow_get_property flow FLOW_PROTOCOL = Some (GUInt 6) /\
    g_inet_flow_get_property flow FLOW_LPORT = Some (GUInt (Z.min sport dport)) /\
    g_inet_flow_get_property flow FLOW_UPORT = Some (GUInt (Z.max sport dport)) /\
    g_inet_flow_get_property flow FLOW_LIP
    = Some (GString (Some (dotted (if GINT32_FROM_BE saddr <? GINT32_FROM_BE daddr
                                   then saddr else daddr)))) /\
    g_inet_flow_get_property flow FLOW_HASH = Some (GUInt (hash flow)) /\
    (forall prop_id, prop_id < 1 \/ 6 < prop_id ->
       g_inet_flow_get_property flow prop_id = None).
Proof.
  intros Hrun Hget.
  pose proof (run_ok bo cs ([], g_inet_flow_table_new) rs (heap, t) table_ok_new Hrun) as Hok.
  pose proof (run_families bo cs rs heap t Hrun) as Hfam.
  cbn [fst snd] in Hok.
  assert (exists flow packet,
            flow_parse flow_zero frame len h = Done (true, packet) /\
            heap' !! r = Some flow /\ tuple flow = tuple packet /\
            family flow = G_SOCKET_FAMILY_IPV4) as (flow & packet & Hp & Hflow & Ht & Hf4).
  { destruct (get_full_effect bo _ _ _ _ _ _ _ _ _ _ Hok Hget)
      as [(_ & ? & _)|[(packet & n & f & Hp & Hin & Hf & Ht & _ & [= ->] & -> & _)
                      |(packet & Hp & _ & [= ->] & -> & _)]]; [done| |].
    - eexists _, packet. split; [done|].
      split; [apply list_lookup_insert_eq; by eapply lookup_lt_Some|].
      split; [done|]. cbn [family set_timestamp]. by eapply Hfam.
    - eexists _, packet. split; [done|]. split; [apply lookup_app_last|].
      split; [done|]. cbn [family]. by destruct (flow_parse_hash _ _ _ _ Hp) as (_ & ? & _). }
  destruct (flow_parse_key frame len h packet Hp)
    as (saddr & daddr & sport & dport & Hs & Hd & Hsp & Hdp & _ & _ & Hpk).
  rewrite Hpk in Ht. cbn [tuple] in Ht.
  exists flow, saddr, daddr, sport, dport.
  split; [done|]. split; [done|]. split; [done|]. split; [done|]. split; [done|].
  split. { change (Some (GUInt (protocol (tuple flow))) = Some (GUInt 6)). by rewrite Ht. }
  split. { change (Some (GUInt (lower_port (tuple flow))) = Some (GUInt (Z.min sport dport))).
           by rewrite Ht. }
  split. { change (Some (GUInt (upper_port (tuple flow))) = Some (GUInt (Z.max sport dport))).
           by rewrite Ht. }
  split. { eapply get_property_lip; [done|]. by rewrite Ht. }
  split; [reflexivity|].
  intros prop_id Hid. unfold g_inet_flow_get_property, FLOW_HASH, FLOW_PROTOCOL, FLOW_LPORT,
    FLOW_UPORT, FLOW_LIP, FLOW_UIP.
  destruct (Z.eqb_spec prop_id 1); [lia|]. destruct (Z.eqb_spec prop_id 2); [lia|].
  destruct (Z.eqb_spec prop_id 3); [lia|]. destruct (Z.eqb_spec prop_id 4); [lia|].
  destruct (Z.eqb_spec prop_id 5); [lia|]. destruct (Z.eqb_spec prop_id 6); [lia|].
  reflexivity.
Qed.

Lemma properties_of_returned_flow_witness :
  run G_LITTLE_ENDIAN ([], g_inet_flow_table_new) calls_ABC
  = Done (results_of G_LITTLE_ENDIAN calls_ABC, state_after G_LITTLE_ENDIAN calls_ABC) /\
  exists heap' t' flow,
    g_inet_flow_get_full G_LITTLE_ENDIAN 9 (state_after G_LITTLE_ENDIAN calls_ABC).1
      (state_after G_LITTLE_ENDIAN calls_ABC).2 (reverse_direction frame_C) 54 0 0
    = Done (Some 2%nat, heap', t') /\
    heap' !! 2%nat = Some flow /\
    g_inet_flow_get_property flow FLOW_LPORT = Some (GUInt 80) /\
    g_inet_flow_get_property flow FLOW_UPORT = Some (GUInt 51000) /\
    g_inet_flow_get_property flow FLOW_LIP = Some (GString (Some "10.0.0.2"%string)).
Proof.
  assert (run G_LITTLE_ENDIAN ([], g_inet_flow_table_new) calls_ABC
          = Done (results_of G_LITTLE_ENDIAN calls_ABC,
                  ((state_after G_LITTLE_ENDIAN calls_ABC).1,
                   (state_after G_LITTLE_ENDIAN calls_ABC).2)))
    as Hrun by (vm_compute; reflexivity).
  split; [vm_compute; reflexivity|].
  destruct (g_inet_flow_get_full G_LITTLE_ENDIAN 9 (state_after G_LITTLE_ENDIAN calls_ABC).1
      (state_after G_LITTLE_ENDIAN calls_ABC).2 (reverse_direction frame_C) 54 0 0)
    as [[[r heap'] t']|] eqn:Hget; [|vm_compute in Hget; discriminate Hget].
  assert (r = Some 2%nat) as -> by (vm_compute in Hget; by injection Hget as <- _ _).
  destruct (properties_of_returned_flow G_LITTLE_ENDIAN calls_ABC _ _ _ 9
              (reverse_direction frame_C) 54 0 0 2 heap' t' Hrun Hget)
    as (flow & saddr & daddr & sport & dport & Hflow & Hs & Hd & Hsp & Hdp & _ & Hl & Hu
        & Hlip & _).
  exists heap', t', flow. split; [reflexivity|]. split; [exact Hflow|].
  vm_compute in Hs, Hd, Hsp, Hdp.
  injection Hs as <-. injection Hd as <-. injection Hsp as <-. injection Hdp as <-.
  split; [exact Hl|]. split; [exact Hu|]. exact Hlip.
Defined.

(** X16: a frame the parser turns down leaves no trace in a run: with
    such a call put in anywhere, the calls before and after it return
    what they return without it, and the store and the table come out
    the same. *)
Theorem rejected_call_is_invisible (bo : byte_order) (cs1 cs2 : list call) (c : call)
    (s s1 : list GInetFlow * GInetFlowTable) (rs1 : list (option nat)) :
  rejects (call_frame c) (call_length c) (call_hash c) ->
  run bo s cs1 = Done (rs1, s1) ->
  run bo s (cs1 ++ c :: cs2)
  = match run bo s1 cs2 with
    | Done (rs2, s2) => Done (rs1 ++ None :: rs2, s2)
    | Undefined => Undefined
    end /\
  run bo s (cs1 ++ cs2)
  = match run bo s1 cs2 with
    | Done (rs2, s2) => Done (rs1 ++ rs2, s2)
    | Undefined => Undefined
    end.
Proof.
  intros [f Hrej]. revert s rs1. induction cs1 as [|c1 cs1 IH]; intros s rs1 Hrun.
  - injection Hrun as <- <-. cbn [app run]. unfold do_call.
    rewrite (get_full_fail bo _ _ _ _ _ _ _ f Hrej). cbn [mbind outcome_bind obind].
    destruct s as [heap t]. cbn [fst snd]. split; by destruct (run bo (heap, t) cs2) as [[? ?]|].
  - apply (run_cons_inv bo) in Hrun as (r & s' & rs & -> & Hc & Hrun).
    destruct (IH s' rs Hrun) as [IH1 IH2].
    cbn [app run]. rewrite Hc. cbn [mbind outcome_bind obind]. rewrite IH1, IH2.
    split; by destruct (run bo s1 cs2) as [[? ?]|].
Qed.

Lemma rejected_call_is_invisible_witness :
  rejects (call_frame (observe frame_udp 9)) (call_length (observe frame_udp 9))
          (call_hash (observe frame_udp 9)) /\
  run G_LITTLE_ENDIAN ([], g_inet_flow_table_new)
      ([observe frame_A 1] ++ observe frame_udp 9 :: [observe frame_A 3])
  = Done ([Some 0; None; Some 0]%nat,
          state_after G_LITTLE_ENDIAN [observe frame_A 1; observe frame_A 3]).
Proof.
  assert (rejects (call_frame (observe frame_udp 9)) (call_length (observe frame_udp 9))
            (call_hash (observe frame_udp 9))) as Hrej by (eexists; vm_compute; reflexivity).
  split; [exact Hrej|].
  assert (run G_LITTLE_ENDIAN ([], g_inet_flow_table_new) [observe frame_A 1]
          = Done ([Some 0%nat], state_after G_LITTLE_ENDIAN [observe frame_A 1])) as Hrun
    by (vm_compute; reflexivity).
  rewrite (proj1 (rejected_call_is_invisible G_LITTLE_ENDIAN [observe frame_A 1]
                    [observe frame_A 3] (observe frame_udp 9) _ _ _ Hrej Hrun)).
  vm_compute. reflexivity.
Defined.
